(** * WeatherApp: the search / fetch / convert / render cycle of the [Weather] component

    Shallow embedding of the two variants of the component:
    - [src/Containers/Weather.tsx] (module [Simple]), and
    - the richer variant with humidity, visibility and in-component
      Fahrenheit conversion (module [Rich]).

    The controller part (the four [useState] cells, the [useEffect] that
    fetches, [toggleTempUnit] and [handleSearch]) is textually the same in
    both files and is embedded once.

    Layout, class names and framer-motion attributes carry no behaviour and
    are left out of the view trees. *)

From Stdlib Require Import ZArith QArith Qround Qabs Qpower Lia Lqa List Bool.
From Stdlib Require Import Ascii String DecimalString DecimalN.
Import ListNotations.

Local Open Scope string_scope.

(** ** JavaScript numbers

    A [number] is an IEEE 754 binary64 value: [Fin q] is the finite double
    whose exact value is the rational [q], besides the two infinities and
    [NaN].  Every arithmetic operation rounds its exact result to the
    nearest double, ties to the even significand ([round64]).  Negative
    zero is identified with zero: [toFixed] writes both as 0.0 and no
    operation of the component tells them apart. *)

Inductive number : Type :=
| Fin (q : Q)
| Infinity (negative : bool)
| NaN.

Definition Qnegative (x : Q) : bool := negb (Qle_bool 0%Q x).

Definition pow2 (e : Z) : Q := (2 ^ e)%Q.

Definition pow10 (e : Z) : Q := (10 ^ e)%Q.

(** The integer [e] with [2^e <= a < 2^(e+1)], for positive [a]. *)
Definition floor_log2 (a : Q) : Z :=
  let e := (Z.log2 (Qnum a) - Z.log2 (Zpos (Qden a)))%Z in
  if Qle_bool (pow2 e) a then e else (e - 1)%Z.

(** The nearest integer, the even one of two equally near. *)
Definition round_half_even (x : Q) : Z :=
  let f := Qfloor x in
  match (x - inject_Z f ?= 1 # 2)%Q with
  | Lt => f
  | Gt => (f + 1)%Z
  | Eq => if Z.even f then f else (f + 1)%Z
  end.

(** The magnitude a positive exact result rounds to: 53 significant bits,
    the least exponent of the last bit being -1074 (subnormals). *)
Definition magnitude (a : Q) : Q :=
  let p := Z.max (floor_log2 a - 52) (-1074) in
  (inject_Z (round_half_even (a / pow2 p)) * pow2 p)%Q.

(** Rounding of an exact result to binary64: the rounded magnitude under
    the sign of the result, and an infinity once that magnitude reaches
    2^1024. *)
Definition round64 (x : Q) : number :=
  let a := Qred (Qabs x) in
  if Qeq_bool a 0%Q then Fin 0%Q
  else
    let r := magnitude a in
    if Qle_bool (pow2 1024) r then Infinity (Qnegative x)
    else Fin (Qred (if Qnegative x then - r else r)%Q).

Definition num_mul (a b : number) : number :=
  match a, b with
  | Fin x, Fin y => round64 (x * y)%Q
  | Fin x, Infinity s | Infinity s, Fin x =>
      if Qeq_bool x 0%Q then NaN else Infinity (xorb s (Qnegative x))
  | Infinity s, Infinity t => Infinity (xorb s t)
  | _, _ => NaN
  end.

Definition num_add (a b : number) : number :=
  match a, b with
  | Fin x, Fin y => round64 (x + y)%Q
  | Fin _, Infinity s | Infinity s, Fin _ => Infinity s
  | Infinity s, Infinity t => if Bool.eqb s t then Infinity s else NaN
  | _, _ => NaN
  end.

(** Division; the zero divisor is taken as positive zero (the component
    only ever divides by the literal 5). *)
Definition num_div (a b : number) : number :=
  match a, b with
  | Fin x, Fin y =>
      if Qeq_bool y 0%Q
      then (if Qeq_bool x 0%Q then NaN else Infinity (Qnegative x))
      else round64 (x / y)%Q
  | Fin _, Infinity _ => Fin 0%Q
  | Infinity s, Fin y => Infinity (xorb s (Qnegative y))
  | _, _ => NaN
  end.

(** A value of TypeScript type [number | string]. *)
Inductive JsVal : Type :=
| VNum (n : number)
| VStr (s : string).

(** *** [Number.prototype.toFixed(1)] *)

Definition digits (n : N) : string := NilZero.string_of_uint (N.to_uint n).

(** The decimal with one fractional digit denoting [n / 10]. *)
Definition tenths_string (negative : bool) (n : N) : string :=
  (if negative then "-" else "") ++ digits (n / 10) ++ "." ++ digits (n mod 10).

(** The rational a one-decimal string denotes. *)
Definition signed_tenths (negative : bool) (n : N) : Q :=
  ((if negative then - (1) else 1) * (Z.of_N n # 10))%Q.

(** The integer [n] for which [n / 10 - x] is as close to zero as possible,
    the larger one when there are two ([x] non-negative). *)
Definition nearest_tenths (x : Q) : N := Z.to_N (Qfloor (x * 10 + (1 # 2))%Q).

(** From 1e21 on [toFixed] answers with [ToString]: the shortest decimal
    significand [s] of [k] digits and the exponent [n] for which
    [s * 10^(n-k)] rounds to the double, the nearest such [s] when there
    are several, written in exponent notation. *)

Definition represents (x : Q) (k : Z) (c : Z * Z) : bool :=
  let (s, n) := c in
  (10 ^ (k - 1) <=? s)%Z && (s <? 10 ^ k)%Z &&
  match round64 (inject_Z s * pow10 (n - k))%Q with
  | Fin r => Qeq_bool r x
  | _ => false
  end.

Definition candidates (x : Q) (n0 : Z) (k : Z) : list (Z * Z) :=
  List.filter (represents x k)
    (List.flat_map
       (fun n => let lo := Qfloor (x / pow10 (n - k))%Q in
                 [(lo, n); ((lo + 1)%Z, n)])
       [n0; (n0 + 1)%Z]).

Definition closer (x : Q) (k : Z) (c d : Z * Z) : Z * Z :=
  let distance c := Qabs (inject_Z (fst c) * pow10 (snd c - k) - x)%Q in
  match (distance d ?= distance c)%Q with
  | Lt => d
  | Eq => if Z.even (fst d) then d else c
  | Gt => c
  end.

Fixpoint shortest (x : Q) (n0 : Z) (ks : list Z) : option (Z * Z) :=
  match ks with
  | [] => None
  | k :: rest =>
      match candidates x n0 k with
      | [] => shortest x n0 rest
      | c :: cs => Some (List.fold_left (closer x k) cs c)
      end
  end.

(** A double needs at most 17 significant decimal digits. *)
Definition significand_lengths : list Z :=
  [1; 2; 3; 4; 5; 6; 7; 8; 9; 10; 11; 12; 13; 14; 15; 16; 17]%Z.

(** [ToString] of a double [x >= 1e21]. *)
Definition exponent_string (x : Q) : string :=
  let n0 := Z.of_nat (String.length (digits (Z.to_N (Qfloor x)))) in
  match shortest x n0 significand_lengths with
  | Some (s, n) =>
      let e := digits (Z.to_N (n - 1)) in
      match digits (Z.to_N s) with
      | String d EmptyString => String d ("e+" ++ e)
      | String d rest => String d ("." ++ rest ++ "e+" ++ e)
      | EmptyString => "NaN"
      end
  | None => "NaN"
  end.

Definition toFixed1 (x : number) : string :=
  match x with
  | NaN => "NaN"
  | Infinity false => "Infinity"
  | Infinity true => "-Infinity"
  | Fin q =>
      if Qle_bool (pow10 21) (Qabs q)
      then (if Qnegative q then "-" else "") ++ exponent_string (Qabs q)
      else tenths_string (Qnegative q) (nearest_tenths (Qabs q))
  end.

(** *** [Number(v)]

    On a string the decimal literals are read (optional sign, digits,
    optional point and digits, optional exponent) and [Infinity], which
    covers every string [toFixed1] produces but "NaN", itself read as
    [NaN]; the value is rounded to the nearest double.  The empty string
    is 0 and any other string is [NaN]. *)

Fixpoint split_point (s : string) : string * option string :=
  match s with
  | EmptyString => (EmptyString, None)
  | String c r =>
      if Ascii.eqb c "." then (EmptyString, Some r)
      else let (a, b) := split_point r in (String c a, b)
  end.

Fixpoint split_exponent (s : string) : string * option string :=
  match s with
  | EmptyString => (EmptyString, None)
  | String c r =>
      if Ascii.eqb c "e" || Ascii.eqb c "E" then (EmptyString, Some r)
      else let (a, b) := split_exponent r in (String c a, b)
  end.

Definition digits_value (s : string) : option N :=
  option_map N.of_uint (NilEmpty.uint_of_string s).

Definition unsigned_value (s : string) : option Q :=
  match split_point s with
  | (i, None) =>
      if String.eqb i "" then None
      else option_map (fun a => inject_Z (Z.of_N a)) (digits_value i)
  | (i, Some f) =>
      if String.eqb i "" && String.eqb f "" then None
      else
        match digits_value i, digits_value f with
        | Some a, Some b =>
            Some (inject_Z (Z.of_N a)
                  + (Z.of_N b # Pos.pow 10 (Pos.of_nat (String.length f))))%Q
        | _, _ => None
        end
  end.

(** The digits of an exponent, with their optional sign. *)
Definition signed_integer (s : string) : option Z :=
  let unsigned r :=
    if String.eqb r "" then None else option_map Z.of_N (digits_value r) in
  match s with
  | EmptyString => None
  | String c r =>
      if Ascii.eqb c "-" then option_map Z.opp (unsigned r)
      else if Ascii.eqb c "+" then unsigned r
      else unsigned s
  end.

Definition decimal_literal (s : string) : option Q :=
  match split_exponent s with
  | (m, None) => unsigned_value m
  | (m, Some x) =>
      match unsigned_value m, signed_integer x with
      | Some q, Some z => Some (q * pow10 z)%Q
      | _, _ => None
      end
  end.

Definition signed_literal (negative : bool) (body : string) : number :=
  if String.eqb body "Infinity" then Infinity negative
  else
    match decimal_literal body with
    | Some q => round64 (if negative then - q else q)%Q
    | None => NaN
    end.

Definition StringToNumber (s : string) : number :=
  match s with
  | EmptyString => Fin 0%Q
  | String c r =>
      if Ascii.eqb c "-" then signed_literal true r
      else if Ascii.eqb c "+" then signed_literal false r
      else signed_literal false s
  end.

Definition Number (v : JsVal) : number :=
  match v with
  | VNum n => n
  | VStr s => StringToNumber s
  end.

(** The value of [(c * 9/5) + 32], each operation rounding to a double. *)
Definition fahrenheitDouble (c : number) : number :=
  num_add (num_div (num_mul c (Fin 9%Q)) (Fin 5%Q)) (Fin 32%Q).

(** The conversion expression [((c * 9/5) + 32).toFixed(1)], written inline
    in the richer variant at the current temperature, at the props of each
    forecast card and inside [ForecastCard]. *)
Definition toFahrenheit (c : number) : string := toFixed1 (fahrenheitDouble c).

(** ** The provider's payload: [interface WeatherData]

    The record follows the richer variant; the simpler one declares the same
    interface without [humidity] and [visibility_km] and never reads them.
    The two [condition] members get distinct field names. *)

Record Condition : Type := { text : string; icon : string }.

Record Location : Type := { name : string }.

Record Current : Type := {
  temp_c : number;
  temp_f : number;
  condition : Condition;
  wind_kph : number;
  precip_mm : number;
  uv : number;
  humidity : number;
  visibility_km : number
}.

Record Day : Type := {
  maxtemp_c : number;
  maxtemp_f : number;
  mintemp_c : number;
  mintemp_f : number;
  day_condition : Condition
}.

Record ForecastDay : Type := { date : string; day : Day }.

Record Forecast : Type := { forecastday : list ForecastDay }.

Record WeatherData : Type := {
  location : Location;
  current : Current;
  forecast : Forecast
}.

(** ** Component state: the four [useState] cells *)

Inductive TempUnit : Type := C | F.

Record State : Type := {
  weatherData : option WeatherData;
  searchQuery : string;
  error : option string;
  tempUnit : TempUnit
}.

(** [useState(null)], [useState('')], [useState(null)], [useState('C')]. *)
Definition initialState : State :=
  {| weatherData := None; searchQuery := ""; error := None; tempUnit := C |}.

Definition setWeatherData (v : option WeatherData) (s : State) : State :=
  {| weatherData := v; searchQuery := searchQuery s;
     error := error s; tempUnit := tempUnit s |}.

Definition setSearchQuery (v : string) (s : State) : State :=
  {| weatherData := weatherData s; searchQuery := v;
     error := error s; tempUnit := tempUnit s |}.

Definition setError (v : option string) (s : State) : State :=
  {| weatherData := weatherData s; searchQuery := searchQuery s;
     error := v; tempUnit := tempUnit s |}.

Definition setTempUnit (v : TempUnit) (s : State) : State :=
  {| weatherData := weatherData s; searchQuery := searchQuery s;
     error := error s; tempUnit := v |}.

(** ** The component in its environment

    Besides the state cells a [World] keeps what the component does to the
    outside: the URLs handed to [axios.get] (oldest first), which of those
    promises have not settled yet (by position in [requests]), the lines
    written with [console.error], and how many promises have settled. *)

Record World : Type := {
  ui : State;
  requests : list string;
  pending : list nat;
  console : list string;
  settled : nat
}.

Definition with_ui (f : State -> State) (w : World) : World :=
  {| ui := f (ui w); requests := requests w; pending := pending w;
     console := console w; settled := settled w |}.

(** How a promise returned by [axios.get] settles.  A rejection is a
    network error or a response whose status is outside 200-299;
    [description] is the text [String(error)] yields. *)

Inductive FetchError : Type :=
| NetworkError
| BadStatus (status : nat).

Definition description (e : FetchError) : string :=
  match e with
  | NetworkError => "AxiosError: Network Error"
  | BadStatus status =>
      "AxiosError: Request failed with status code "
      ++ NilZero.string_of_uint (Nat.to_uint status)
  end.

Inductive Outcome : Type :=
| Fulfilled (data : WeatherData)
| Rejected (e : FetchError).

(** *** The reply before TypeScript's types

    [axios.get<WeatherData>] checks nothing: with its default settings the
    promise is fulfilled for every status from 200 to 299, [response.data]
    being whatever the body was, and rejected otherwise.  [Payload] is the
    body of such a response, of the declared shape or not; [Cells] are the
    two result cells and the console as they are at run time, where the
    data cell holds whatever was stored. *)

Inductive Payload : Type :=
| Shaped (data : WeatherData)
| Misshapen (body : string).

Inductive Reply : Type :=
| Unreachable
| Answered (status : nat) (body : Payload).

Inductive Settlement : Type :=
| Resolves (body : Payload)
| Rejects (e : FetchError).

Definition axios_settles (r : Reply) : Settlement :=
  match r with
  | Unreachable => Rejects NetworkError
  | Answered status body =>
      if (200 <=? status)%nat && (status <? 300)%nat
      then Resolves body
      else Rejects (BadStatus status)
  end.

Record Cells : Type := {
  dataCell : option Payload;
  errorCell : option string;
  consoleLines : list string
}.

(** [setWeatherData(response.data); setError(null)]. *)
Definition thenCallback (body : Payload) (c : Cells) : Cells :=
  {| dataCell := Some body; errorCell := None; consoleLines := consoleLines c |}.

(** [console.error(...); setError('Location is not available');
    setWeatherData(null)]. *)
Definition catchCallback (e : FetchError) (c : Cells) : Cells :=
  {| dataCell := None;
     errorCell := Some "Location is not available";
     consoleLines := consoleLines c ++ ["Error: " ++ description e] |}.

Definition deliver (r : Reply) (c : Cells) : Cells :=
  match axios_settles r with
  | Resolves body => thenCallback body c
  | Rejects e => catchCallback e c
  end.

Definition forecastUrl (q : string) : string :=
  "https://api.weatherapi.com/v1/forecast.json?key=83ef98777f7d4279b8b110122242203&q="
  ++ q ++ "&days=5".

Definition axios_get (url : string) (w : World) : World :=
  {| ui := ui w;
     requests := requests w ++ [url];
     pending := pending w ++ [List.length (requests w)];
     console := console w;
     settled := settled w |}.

(** Truthiness of a string: every string but the empty one. *)
Definition truthy (s : string) : bool := negb (String.eqb s "").

(** The body of the effect: [if (searchQuery) { axios.get(...) ... }]. *)
Definition effect (w : World) : World :=
  if truthy (searchQuery (ui w))
  then axios_get (forecastUrl (searchQuery (ui w))) w
  else w.

(** [useEffect(..., [searchQuery])] after a render: the effect runs again
    only when the dependency differs from the one of the previous render. *)
Definition useEffect (previous : State) (w : World) : World :=
  if String.eqb (searchQuery previous) (searchQuery (ui w)) then w else effect w.

(** First render: the effect runs once with the initial state. *)
Definition mount : World :=
  effect {| ui := initialState; requests := []; pending := [];
            console := []; settled := 0 |}.

Definition toggleTempUnit (w : World) : World :=
  useEffect (ui w)
    (with_ui (fun s => setTempUnit (match tempUnit s with C => F | F => C end) s) w).

(** [handleSearch]: the text of the [location] input goes to
    [setSearchQuery] as it is. *)
Definition handleSearch (value : string) (w : World) : World :=
  useEffect (ui w) (with_ui (setSearchQuery value) w).

(** The [.then] callback. *)
Definition onFulfilled (data : WeatherData) (w : World) : World :=
  with_ui (fun s => setError None (setWeatherData (Some data) s)) w.

(** The [.catch] callback. *)
Definition onRejected (e : FetchError) (w : World) : World :=
  with_ui (fun s => setWeatherData None (setError (Some "Location is not available") s))
    {| ui := ui w; requests := requests w; pending := pending w;
       console := console w ++ ["Error: " ++ description e];
       settled := settled w |}.

Definition remove_pending (i : nat) (w : World) : World :=
  {| ui := ui w; requests := requests w;
     pending := List.filter (fun j => negb (Nat.eqb i j)) (pending w);
     console := console w; settled := S (settled w) |}.

(** The promise of request [i] settles with outcome [o]; a promise settles
    once, so nothing happens unless [i] is still pending. *)
Definition settle (i : nat) (o : Outcome) (w : World) : World :=
  if List.existsb (Nat.eqb i) (pending w) then
    let w' := remove_pending i w in
    useEffect (ui w)
      match o with
      | Fulfilled data => onFulfilled data w'
      | Rejected e => onRejected e w'
      end
  else w.

Inductive Event : Type :=
| Submit (value : string)
| Toggle
| Settle (i : nat) (o : Outcome).

Definition step (w : World) (e : Event) : World :=
  match e with
  | Submit value => handleSearch value w
  | Toggle => toggleTempUnit w
  | Settle i o => settle i o w
  end.

Definition run (es : list Event) (w : World) : World := List.fold_left step es w.

Inductive Reachable : World -> Prop :=
| reach_mount : Reachable mount
| reach_step w e : Reachable w -> Reachable (step w e).

(** ** Rendering

    A view keeps the texts and values the JSX puts on screen. *)

(** [interface ForecastCardProps]; [date] and [tempUnit] are prefixed, the
    names being taken by the payload and the state. *)
Record ForecastCardProps : Type := {
  prop_date : string;
  maxTemp : number;
  minTemp : number;
  conditionText : string;
  conditionIcon : string;
  prop_tempUnit : TempUnit
}.

(** What a forecast card shows: the heading, the image, the condition line,
    and the values of the [Max temp:] and [Min temp:] lines followed by the
    degree sign and the unit. *)
Record CardView : Type := {
  card_h3 : string;
  card_img_src : string;
  card_img_alt : string;
  card_p : string;
  card_max : JsVal;
  card_min : JsVal;
  card_unit : TempUnit
}.

Inductive Animation : Type := Sun | Cloud | Rain.

Record CurrentView : Type := {
  cur_h1 : string;
  cur_temp : JsVal;
  cur_unit : TempUnit;
  cur_animation : option Animation;
  cur_img_src : string;
  cur_img_alt : string;
  cur_p : string;
  cur_wind : number;
  cur_precip : number;
  cur_uv : number;
  cur_humidity : option number;
  cur_visibility : option number
}.

Record View : Type := {
  button_label : string;
  error_p : option string;
  panels : option (CurrentView * list CardView)
}.

(** [Switch to {tempUnit === 'C' ? 'Fahrenheit' : 'Celsius'}]. *)
Definition switchLabel (u : TempUnit) : string :=
  "Switch to " ++ match u with C => "Fahrenheit" | F => "Celsius" end.

(** [{error && <p>{error}</p>}]: nothing for [null] and for the empty string. *)
Definition errorLine (e : option string) : option string :=
  match e with
  | Some m => if truthy m then Some m else None
  | None => None
  end.

Module Simple.

(** [ForecastCard] of [src/Containers/Weather.tsx]: both branches of the
    conditional are the prop itself. *)
Definition ForecastCard (p : ForecastCardProps) : CardView :=
  {| card_h3 := prop_date p;
     card_img_src := conditionIcon p;
     card_img_alt := conditionText p;
     card_p := conditionText p;
     card_max := VNum (match prop_tempUnit p with C => maxTemp p | F => maxTemp p end);
     card_min := VNum (match prop_tempUnit p with C => minTemp p | F => minTemp p end);
     card_unit := prop_tempUnit p |}.

Definition cardProps (u : TempUnit) (d : ForecastDay) : ForecastCardProps :=
  {| prop_date := date d;
     maxTemp := maxtemp_c (day d);
     minTemp := mintemp_c (day d);
     conditionText := text (day_condition (day d));
     conditionIcon := icon (day_condition (day d));
     prop_tempUnit := u |}.

Definition currentPanel (u : TempUnit) (d : WeatherData) : CurrentView :=
  {| cur_h1 := "Current Weather in " ++ name (location d);
     cur_temp := VNum (match u with C => temp_c (current d) | F => temp_f (current d) end);
     cur_unit := u;
     cur_animation := None;
     cur_img_src := icon (condition (current d));
     cur_img_alt := text (condition (current d));
     cur_p := text (condition (current d));
     cur_wind := wind_kph (current d);
     cur_precip := precip_mm (current d);
     cur_uv := uv (current d);
     cur_humidity := None;
     cur_visibility := None |}.

Definition forecastPanels (u : TempUnit) (d : WeatherData) : list CardView :=
  List.map (fun day => ForecastCard (cardProps u day)) (forecastday (forecast d)).

Definition Weather (s : State) : View :=
  {| button_label := switchLabel (tempUnit s);
     error_p := errorLine (error s);
     panels :=
       match weatherData s with
       | Some d => Some (currentPanel (tempUnit s) d, forecastPanels (tempUnit s) d)
       | None => None
       end |}.

End Simple.

(** [String.prototype.toLowerCase] on the ASCII letters, which is all the
    comparison with ['sunny'], ['cloudy'] and ['rain'] can depend on. *)
Definition lower_ascii (c : ascii) : ascii :=
  let n := nat_of_ascii c in
  if (65 <=? n)%nat && (n <=? 90)%nat then ascii_of_nat (n + 32) else c.

Fixpoint toLowerCase (s : string) : string :=
  match s with
  | EmptyString => EmptyString
  | String c r => String (lower_ascii c) (toLowerCase r)
  end.

Module Rich.

(** [ForecastCard] of the richer variant: in Fahrenheit the card converts
    the prop it receives. *)
Definition ForecastCard (p : ForecastCardProps) : CardView :=
  {| card_h3 := prop_date p;
     card_img_src := conditionIcon p;
     card_img_alt := conditionText p;
     card_p := conditionText p;
     card_max := match prop_tempUnit p with
                 | C => VNum (maxTemp p)
                 | F => VStr (toFahrenheit (maxTemp p))
                 end;
     card_min := match prop_tempUnit p with
                 | C => VNum (minTemp p)
                 | F => VStr (toFahrenheit (minTemp p))
                 end;
     card_unit := prop_tempUnit p |}.

(** The props built in [Weather]: in Fahrenheit [maxTemp] and [minTemp]
    are already converted, [Number] reading the [toFixed] string back. *)
Definition cardProps (u : TempUnit) (d : ForecastDay) : ForecastCardProps :=
  {| prop_date := date d;
     maxTemp := Number (match u with
                        | C => VNum (maxtemp_c (day d))
                        | F => VStr (toFahrenheit (maxtemp_c (day d)))
                        end);
     minTemp := Number (match u with
                        | C => VNum (mintemp_c (day d))
                        | F => VStr (toFahrenheit (mintemp_c (day d)))
                        end);
     conditionText := text (day_condition (day d));
     conditionIcon := icon (day_condition (day d));
     prop_tempUnit := u |}.

Definition getWeatherAnimation (condition : string) : option Animation :=
  let c := toLowerCase condition in
  if String.eqb c "sunny" then Some Sun
  else if String.eqb c "cloudy" then Some Cloud
  else if String.eqb c "rain" then Some Rain
  else None.

Definition currentPanel (u : TempUnit) (d : WeatherData) : CurrentView :=
  {| cur_h1 := "Current Weather in " ++ name (location d);
     cur_temp := match u with
                 | C => VNum (temp_c (current d))
                 | F => VStr (toFahrenheit (temp_c (current d)))
                 end;
     cur_unit := u;
     cur_animation := getWeatherAnimation (text (condition (current d)));
     cur_img_src := icon (condition (current d));
     cur_img_alt := text (condition (current d));
     cur_p := text (condition (current d));
     cur_wind := wind_kph (current d);
     cur_precip := precip_mm (current d);
     cur_uv := uv (current d);
     cur_humidity := Some (humidity (current d));
     cur_visibility := Some (visibility_km (current d)) |}.

Definition forecastPanels (u : TempUnit) (d : WeatherData) : list CardView :=
  List.map (fun day => ForecastCard (cardProps u day)) (forecastday (forecast d)).

Definition Weather (s : State) : View :=
  {| button_label := switchLabel (tempUnit s);
     error_p := errorLine (error s);
     panels :=
       match weatherData s with
       | Some d => Some (currentPanel (tempUnit s) d, forecastPanels (tempUnit s) d)
       | None => None
       end |}.

End Rich.

(** ** Sample payloads *)

Definition sampleCondition : Condition :=
  {| text := "Sunny"; icon := "//cdn.weatherapi.com/weather/64x64/day/113.png" |}.

Definition sampleDay (d : string) (hi lo : Q) : ForecastDay :=
  {| date := d;
     day := {| maxtemp_c := Fin hi; maxtemp_f := round64 (hi * (9 # 5) + 32);
               mintemp_c := Fin lo; mintemp_f := round64 (lo * (9 # 5) + 32);
               day_condition := sampleCondition |} |}.

Definition sampleData (city : string) (t : Q) (days : list ForecastDay) : WeatherData :=
  {| location := {| name := city |};
     current := {| temp_c := Fin t; temp_f := round64 (t * (9 # 5) + 32);
                   condition := sampleCondition;
                   wind_kph := Fin 11; precip_mm := Fin 0; uv := Fin 5;
                   humidity := Fin 40; visibility_km := Fin 10 |};
     forecast := {| forecastday := days |} |}.

Definition fiveDays : list ForecastDay :=
  [ sampleDay "2024-03-22" 20 10; sampleDay "2024-03-23" 21 11;
    sampleDay "2024-03-24" 22 12; sampleDay "2024-03-25" 23 13;
    sampleDay "2024-03-26" 24 14 ].

Definition london : WeatherData := sampleData "London" 12 fiveDays.
Definition tokyo : WeatherData := sampleData "Tokyo" 20 fiveDays.

Definition paris : WeatherData := sampleData "Paris" 15 fiveDays.

(** What the component holds as its result, and what a settled promise
    makes of it. *)
Definition shown (s : State) : option WeatherData * option string :=
  (weatherData s, error s).

Definition response (o : Outcome) : option WeatherData * option string :=
  match o with
  | Fulfilled data => (Some data, None)
  | Rejected _ => (None, Some "Location is not available")
  end.

(** Whitespace-only texts, as the specification's trimming would see them
    (the component itself never trims). *)
Definition is_space (c : ascii) : bool :=
  let n := nat_of_ascii c in
  (n =? 32)%nat || ((9 <=? n)%nat && (n <=? 13)%nat).

Fixpoint blank (s : string) : bool :=
  match s with
  | EmptyString => true
  | String c r => is_space c && blank r
  end.

(** A rejection as the provider answers an unknown location. *)
Definition nowhereland : FetchError := BadStatus 400.

Definition noForecast : WeatherData := sampleData "Oslo" 3 [].

Definition sevenDays : list ForecastDay :=
  (fiveDays ++ [sampleDay "2024-03-27" 25 15; sampleDay "2024-03-28" 26 16])%list.

(** Sample runs of the component. *)
Definition staleRun : World :=
  run [Submit "London"; Submit "Tokyo";
       Settle 1 (Fulfilled tokyo); Settle 0 (Fulfilled london)] mount.

Definition londonThenNowhereland : World :=
  run [Submit "London"; Settle 0 (Fulfilled london); Submit "Nowhereland"] mount.

Definition twoSettled : World :=
  run [Submit "London"; Settle 0 (Fulfilled london);
       Submit "Nowhereland"; Settle 1 (Rejected nowhereland)] mount.

Definition tokyoInFahrenheit : State :=
  setTempUnit F (setWeatherData (Some tokyo) initialState).

(** The result invariant of the component. *)
Definition exactly_one (s : State) : Prop :=
  (weatherData s <> None /\ error s = None) \/
  (weatherData s = None /\ error s <> None).

Definition result_invariant (w : World) : Prop :=
  (settled w = 0%nat -> weatherData (ui w) = None /\ error (ui w) = None) /\
  ((0 < settled w)%nat -> exactly_one (ui w)).





(** The typed component seen as run-time cells. *)
Definition cells (w : World) : Cells :=
  {| dataCell := option_map Shaped (weatherData (ui w));
     errorCell := error (ui w);
     consoleLines := console w |}.

(** A 200 response whose body has none of the declared members. *)
Definition emptyObject : Reply := Answered 200 (Misshapen "{}").

(** ** Vocabulary of the further properties *)

(** The literal each [case] of [getWeatherAnimation] compares with. *)
Definition animationWord (a : Animation) : string :=
  match a with
  | Sun => "sunny"
  | Cloud => "cloudy"
  | Rain => "rain"
  end.

Definition otherUnit (u : TempUnit) : TempUnit :=
  match u with C => F | F => C end.

(** What the current-conditions panel shows besides the temperature and
    its unit, and what a forecast card shows besides its two temperatures
    and their unit. *)
Definition currentReadings (v : CurrentView) :=
  (cur_h1 v, cur_animation v, cur_img_src v, cur_img_alt v, cur_p v,
   cur_wind v, cur_precip v, cur_uv v, cur_humidity v, cur_visibility v).

Definition cardReadings (c : CardView) :=
  (card_h3 c, card_img_src c, card_img_alt c, card_p c).

Definition panelReadings (v : View) :=
  option_map (fun p => (currentReadings (fst p), List.map cardReadings (snd p)))
    (panels v).

(** The submissions of a non-empty text among a sequence of events. *)
Definition isSubmission (e : Event) : bool :=
  match e with
  | Submit value => truthy value
  | _ => false
  end.

Definition submissions (es : list Event) : nat :=
  List.length (List.filter isSubmission es).

(** The unit toggles among a sequence of events, and the text of the
    latest submission in it ([q0] when there is none). *)
Definition isToggle (e : Event) : bool :=
  match e with
  | Toggle => true
  | _ => false
  end.

Definition toggles (es : list Event) : nat :=
  List.length (List.filter isToggle es).

Definition latestSubmission (es : list Event) (q0 : string) : string :=
  List.fold_left (fun q e => match e with Submit value => value | _ => q end) es q0.

(** A failed search followed by the submission of London. *)
Definition nowherelandThenLondon : World :=
  run [Submit "Nowhereland"; Settle 0 (Rejected nowhereland); Submit "London"] mount.

(** * Properties of the controller *)

Section Controller.

Variable w : World.

Lemma truthy_nonempty (q : string) : truthy q = true <-> q <> "".
Proof.
  unfold truthy. rewrite negb_true_iff. split; intro H.
  - intro E. subst q. discriminate.
  - destruct (String.eqb_spec q ""); congruence.
Qed.

Lemma useEffect_same_query (w' : World) :
  searchQuery (ui w') = searchQuery (ui w) -> useEffect (ui w) w' = w'.
Proof.
  intro E. unfold useEffect. rewrite E, String.eqb_refl. reflexivity.
Qed.

Lemma toggleTempUnit_eq :
  toggleTempUnit w =
  with_ui (fun s => setTempUnit (match tempUnit s with C => F | F => C end) s) w.
Proof. unfold toggleTempUnit. apply useEffect_same_query. reflexivity. Qed.

Lemma handleSearch_same :
  handleSearch (searchQuery (ui w)) w = w.
Proof.
  unfold handleSearch. rewrite useEffect_same_query by reflexivity.
  destruct w as [[d q e u] r p c n]. reflexivity.
Qed.

Lemma handleSearch_empty :
  searchQuery (ui w) <> "" ->
  handleSearch "" w = with_ui (setSearchQuery "") w.
Proof.
  intro H. unfold handleSearch, useEffect. cbn.
  destruct (String.eqb_spec (searchQuery (ui w)) ""); [congruence|].
  reflexivity.
Qed.

Lemma handleSearch_fetch (v : string) :
  v <> "" -> v <> searchQuery (ui w) ->
  handleSearch v w = axios_get (forecastUrl v) (with_ui (setSearchQuery v) w).
Proof.
  intros Hne Hq. unfold handleSearch, useEffect, effect. cbn.
  destruct (String.eqb_spec (searchQuery (ui w)) v); [congruence|].
  apply truthy_nonempty in Hne. rewrite Hne. reflexivity.
Qed.

Lemma settle_pending (i : nat) (o : Outcome) :
  In i (pending w) ->
  settle i o w =
  match o with
  | Fulfilled data => onFulfilled data (remove_pending i w)
  | Rejected e => onRejected e (remove_pending i w)
  end.
Proof.
  intro Hin. unfold settle.
  replace (existsb (Nat.eqb i) (pending w)) with true.
  - apply useEffect_same_query. destruct o; reflexivity.
  - symmetry. apply existsb_exists. exists i. split; [assumption|].
    apply Nat.eqb_refl.
Qed.

Lemma settle_not_pending (i : nat) (o : Outcome) :
  ~ In i (pending w) -> settle i o w = w.
Proof.
  intro Hn. unfold settle.
  destruct (existsb (Nat.eqb i) (pending w)) eqn:E; [|reflexivity].
  apply existsb_exists in E. destruct E as [j [Hj Hij]].
  apply Nat.eqb_eq in Hij. subst j. contradiction.
Qed.

Lemma settle_shown (i : nat) (o : Outcome) :
  In i (pending w) -> shown (ui (settle i o w)) = response o.
Proof.
  intro Hin. rewrite settle_pending by assumption. destruct o; reflexivity.
Qed.

Lemma settle_keeps_other (i j : nat) (o : Outcome) :
  i <> j -> In j (pending w) -> In j (pending (settle i o w)).
Proof.
  intros Hij Hj. unfold settle.
  destruct (existsb (Nat.eqb i) (pending w)); [|assumption].
  unfold useEffect.
  assert (Hf : In j (filter (fun k => negb (Nat.eqb i k)) (pending w))).
  { apply filter_In. split; [assumption|].
    apply negb_true_iff, Nat.eqb_neq. assumption. }
  destruct o; cbn; rewrite String.eqb_refl; exact Hf.
Qed.

End Controller.

(** * Responses and submissions *)

(** C1, as stated, fails: London is submitted, then Tokyo while London is
    still in flight; Tokyo's response arrives first and London's second.
    The component ends up showing London although the query is Tokyo. *)
Lemma C1_stale_response_shown :
  searchQuery (ui staleRun) = "Tokyo" /\
  shown (ui staleRun) = (Some london, None) /\
  shown (ui staleRun) <> response (Fulfilled tokyo).
Proof.
  repeat split.
  intro H. apply (f_equal fst) in H. cbn in H.
  apply (f_equal (option_map (fun d => name (location d)))) in H.
  discriminate H.
Qed.

(** C1, amended: there is no stale-response guard.  When a second submission
    follows a first one whose fetch is still in flight, both requests are
    pending and each response, on arrival, replaces the result whatever
    submission it belongs to: the final result is that of the response that
    arrives last, hence that of the most recent submission exactly when its
    response is the last to arrive. *)
Theorem C1_last_response_wins (w : World) (q1 q2 : string) (o1 o2 : Outcome) :
  q1 <> "" -> q2 <> "" -> q1 <> searchQuery (ui w) -> q2 <> q1 ->
  let first := List.length (requests w) in
  let second := S first in
  let w2 := handleSearch q2 (handleSearch q1 w) in
  requests w2 = (requests w ++ [forecastUrl q1; forecastUrl q2])%list /\
  In first (pending w2) /\ In second (pending w2) /\
  shown (ui (run [Settle first o1; Settle second o2] w2)) = response o2 /\
  shown (ui (run [Settle second o2; Settle first o1] w2)) = response o1.
Proof.
  intros H1 H2 Hq1 Hq2 first second w2.
  assert (E1 : handleSearch q1 w
               = axios_get (forecastUrl q1) (with_ui (setSearchQuery q1) w))
    by (apply handleSearch_fetch; assumption).
  assert (E2 : w2 = axios_get (forecastUrl q2)
                      (with_ui (setSearchQuery q2) (handleSearch q1 w))).
  { unfold w2. apply handleSearch_fetch; [assumption|].
    rewrite E1. cbn. assumption. }
  assert (Hr : requests w2 = (requests w ++ [forecastUrl q1; forecastUrl q2])%list).
  { rewrite E2, E1. cbn. rewrite <- app_assoc. reflexivity. }
  assert (Hp : pending w2 = (pending w ++ [first; second])%list).
  { rewrite E2, E1. cbn. rewrite <- app_assoc, length_app. cbn.
    unfold second, first. repeat f_equal. lia. }
  assert (Hf : In first (pending w2)).
  { rewrite Hp. apply in_or_app. right. left. reflexivity. }
  assert (Hs : In second (pending w2)).
  { rewrite Hp. apply in_or_app. right. right. left. reflexivity. }
  assert (Hne : first <> second) by (unfold second; lia).
  repeat split; try assumption.
  - cbn. apply settle_shown. apply settle_keeps_other; assumption.
  - cbn. apply settle_shown. apply settle_keeps_other; [congruence | assumption].
Qed.

Lemma C1_last_response_wins_witness :
  ("London" <> "" /\ "Tokyo" <> "" /\
   "London" <> searchQuery (ui mount) /\ "Tokyo" <> "London") /\
  shown (ui (run [Settle 0 (Fulfilled london); Settle 1 (Fulfilled tokyo)]
               (handleSearch "Tokyo" (handleSearch "London" mount))))
  = response (Fulfilled tokyo) /\
  shown (ui (run [Settle 1 (Fulfilled tokyo); Settle 0 (Fulfilled london)]
               (handleSearch "Tokyo" (handleSearch "London" mount))))
  = response (Fulfilled london).
Proof.
  assert (H1 : "London" <> "") by discriminate.
  assert (H2 : "Tokyo" <> "") by discriminate.
  assert (H3 : "London" <> searchQuery (ui mount)) by discriminate.
  assert (H4 : "Tokyo" <> "London") by discriminate.
  split; [repeat split; assumption|].
  pose proof (C1_last_response_wins mount "London" "Tokyo"
                (Fulfilled london) (Fulfilled tokyo) H1 H2 H3 H4) as T.
  cbv zeta in T. destruct T as (_ & _ & _ & Ta & Tb).
  split; [exact Ta | exact Tb].
Defined.

(** C3, as stated, fails.  A text of one space is blank, yet submitting it
    on the fresh component stores it as the query and requests its
    forecast; and submitting the empty text after "Paris" replaces the
    stored query. *)
Lemma C3_blank_submission_not_ignored :
  blank " " = true /\
  searchQuery (ui (handleSearch " " mount)) = " " /\
  requests mount = [] /\
  requests (handleSearch " " mount) = [forecastUrl " "] /\
  blank "" = true /\
  searchQuery (ui (handleSearch "Paris" mount)) = "Paris" /\
  searchQuery (ui (handleSearch "" (handleSearch "Paris" mount))) = "".
Proof. repeat split. Qed.

(** C3, amended: submitting the empty text issues no fetch and leaves the
    result and the display unit unchanged, the stored query becoming the
    empty text.  No text is trimmed: any non-empty text that differs from
    the stored query, whitespace-only or not, is stored and its forecast is
    requested. *)
Theorem C3_empty_submission (w : World) :
  (let w' := handleSearch "" w in
   searchQuery (ui w') = "" /\
   shown (ui w') = shown (ui w) /\
   tempUnit (ui w') = tempUnit (ui w) /\
   requests w' = requests w /\
   pending w' = pending w) /\
  (forall v : string,
     v <> "" -> v <> searchQuery (ui w) ->
     searchQuery (ui (handleSearch v w)) = v /\
     requests (handleSearch v w) = (requests w ++ [forecastUrl v])%list).
Proof.
  split.
  - cbv zeta. destruct (string_dec (searchQuery (ui w)) "") as [E|E].
    + pose proof (handleSearch_same w) as Hs. rewrite E in Hs. rewrite Hs.
      repeat split. assumption.
    + rewrite handleSearch_empty by assumption. repeat split.
  - intros v Hv Hq. rewrite handleSearch_fetch by assumption. split; reflexivity.
Qed.

Lemma C3_empty_submission_witness :
  (" " <> "" /\ " " <> searchQuery (ui mount)) /\
  searchQuery (ui (handleSearch " " mount)) = " " /\
  requests (handleSearch " " mount) = (requests mount ++ [forecastUrl " "])%list.
Proof.
  assert (H1 : " " <> "") by discriminate.
  assert (H2 : " " <> searchQuery (ui mount)) by discriminate.
  split; [split; assumption|].
  exact (proj2 (C3_empty_submission mount) " " H1 H2).
Defined.

(** C4, as stated, fails: "Paris" submitted twice in a row is requested
    once; the second, equally valid, submission issues no call. *)
Lemma C4_resubmission_issues_no_call :
  requests (run [Submit "Paris"] mount) = [forecastUrl "Paris"] /\
  requests (run [Submit "Paris"; Submit "Paris"] mount) = [forecastUrl "Paris"] /\
  List.length (requests (run [Submit "Paris"; Submit "Paris"] mount)) <> 2%nat.
Proof. repeat split. cbn. discriminate. Qed.

(** C4, amended: a submission issues exactly one network call when its text
    is non-empty and differs from the stored query, and none otherwise, in
    particular none when the text of the previous submission is submitted
    again; mounting the component and toggling the unit issue no call. *)
Theorem C4_network_calls (w : World) (v : string) :
  requests mount = [] /\
  requests (toggleTempUnit w) = requests w /\
  requests (handleSearch v w) =
    (requests w ++
     if truthy v && negb (String.eqb v (searchQuery (ui w)))
     then [forecastUrl v] else [])%list.
Proof.
  split; [reflexivity|]. split.
  - rewrite toggleTempUnit_eq. reflexivity.
  - destruct (String.eqb_spec v (searchQuery (ui w))) as [E|E].
    + subst v. rewrite handleSearch_same, andb_false_r, app_nil_r. reflexivity.
    + rewrite andb_true_r. destruct (truthy v) eqn:T.
      * apply truthy_nonempty in T. rewrite handleSearch_fetch by assumption.
        reflexivity.
      * assert (Ev : v = "").
        { destruct (string_dec v "") as [E0|E0]; [assumption|].
          apply truthy_nonempty in E0. congruence. }
        subst v. rewrite handleSearch_empty by congruence.
        rewrite app_nil_r. reflexivity.
Qed.

Lemma axios_rejects (r : Reply) (e : FetchError) :
  axios_settles r = Rejects e ->
  (r = Unreachable /\ e = NetworkError) \/
  (exists status body,
     r = Answered status body /\ e = BadStatus status /\
     (status < 200 \/ 300 <= status)%nat).
Proof.
  destruct r as [|status body]; unfold axios_settles.
  - intros [= <-]. left. split; reflexivity.
  - destruct (Nat.leb_spec 200 status) as [Hlo|Hlo];
      destruct (Nat.ltb_spec status 300) as [Hhi|Hhi]; cbn [andb];
      [discriminate | | | ]; intros [= <-]; right; exists status, body;
      repeat split; lia.
Qed.

Lemma axios_resolves (status : nat) (body : Payload) :
  (200 <= status < 300)%nat -> axios_settles (Answered status body) = Resolves body.
Proof.
  intros [Hlo Hhi]. unfold axios_settles.
  apply Nat.leb_le in Hlo. apply Nat.ltb_lt in Hhi. rewrite Hlo, Hhi. reflexivity.
Qed.

(** C5, as stated, fails for malformed payloads: the provider answers 200
    with the body "{}" while London is on screen.  The promise is
    fulfilled, the body is stored as the data through the success path, and
    the error stays null: no message is set and nothing is logged. *)
Lemma C5_malformed_payload_stored :
  axios_settles emptyObject = Resolves (Misshapen "{}") /\
  dataCell (cells londonThenNowhereland) = Some (Shaped london) /\
  deliver emptyObject (cells londonThenNowhereland)
  = {| dataCell := Some (Misshapen "{}"); errorCell := None; consoleLines := [] |} /\
  errorCell (deliver emptyObject (cells londonThenNowhereland))
  <> Some "Location is not available".
Proof. repeat split. discriminate. Qed.

(** C5, amended: for every rejected fetch, that is for a network error and
    for a response whose status is outside 200-299, the controller sets the
    error to "Location is not available" (the same message in all cases,
    the underlying error only being logged) and clears any stored data, and
    both variants then show the message and no weather panel.  The payload
    of a response with a status from 200 to 299 is not validated: whatever
    it is, malformed included, it is stored through the success path, the
    error is cleared and nothing is logged. *)
Theorem C5_rejection_sets_message
    (w : World) (i : nat) (r : Reply) (e : FetchError) :
  In i (pending w) ->
  axios_settles r = Rejects e ->
  let w' := settle i (Rejected e) w in
  ((r = Unreachable /\ e = NetworkError) \/
   (exists status body,
      r = Answered status body /\ e = BadStatus status /\
      (status < 200 \/ 300 <= status)%nat)) /\
  error (ui w') = Some "Location is not available" /\
  weatherData (ui w') = None /\
  console w' = (console w ++ [("Error: " ++ description e)%string])%list /\
  error_p (Rich.Weather (ui w')) = Some "Location is not available" /\
  panels (Rich.Weather (ui w')) = None /\
  error_p (Simple.Weather (ui w')) = Some "Location is not available" /\
  panels (Simple.Weather (ui w')) = None /\
  cells w' = deliver r (cells w) /\
  (forall (status : nat) (body : Payload) (c : Cells),
     (200 <= status < 300)%nat ->
     deliver (Answered status body) c
     = {| dataCell := Some body; errorCell := None;
          consoleLines := consoleLines c |}).
Proof.
  intros Hin Hr w'. split; [apply axios_rejects; assumption|].
  unfold w'. rewrite settle_pending by assumption.
  unfold deliver. rewrite Hr.
  repeat split.
  intros status body c H. rewrite (axios_resolves status body H). reflexivity.
Qed.

Lemma C5_rejection_sets_message_witness :
  In 1%nat (pending londonThenNowhereland) /\
  axios_settles (Answered 400 (Misshapen "No matching location found."))
  = Rejects nowhereland /\
  weatherData (ui londonThenNowhereland) = Some london /\
  error (ui (settle 1 (Rejected nowhereland) londonThenNowhereland))
    = Some "Location is not available" /\
  weatherData (ui (settle 1 (Rejected nowhereland) londonThenNowhereland)) = None /\
  (200 <= 204 < 300)%nat /\
  deliver (Answered 204 (Misshapen "")) (cells londonThenNowhereland)
  = {| dataCell := Some (Misshapen ""); errorCell := None;
       consoleLines := consoleLines (cells londonThenNowhereland) |}.
Proof.
  assert (Hin : In 1%nat (pending londonThenNowhereland)) by (left; reflexivity).
  assert (Hr : axios_settles (Answered 400 (Misshapen "No matching location found."))
               = Rejects nowhereland) by reflexivity.
  assert (Hs : (200 <= 204 < 300)%nat) by lia.
  split; [exact Hin|]. split; [exact Hr|]. split; [reflexivity|].
  pose proof (C5_rejection_sets_message londonThenNowhereland 1%nat _ nowhereland Hin Hr)
    as T.
  cbv zeta in T. destruct T as (_ & Te & Td & _ & _ & _ & _ & _ & _ & Tok).
  split; [exact Te|]. split; [exact Td|]. split; [exact Hs|].
  exact (Tok 204%nat (Misshapen "") (cells londonThenNowhereland) Hs).
Defined.

(** C7: toggling the unit twice restores the display unit (indeed the whole
    component), and one toggle changes neither the result nor the requests
    issued or pending. *)
Theorem C7_toggle_twice (w : World) :
  tempUnit (ui (toggleTempUnit (toggleTempUnit w))) = tempUnit (ui w) /\
  toggleTempUnit (toggleTempUnit w) = w /\
  tempUnit (ui (toggleTempUnit w)) <> tempUnit (ui w) /\
  shown (ui (toggleTempUnit w)) = shown (ui w) /\
  searchQuery (ui (toggleTempUnit w)) = searchQuery (ui w) /\
  requests (toggleTempUnit w) = requests w /\
  pending (toggleTempUnit w) = pending w.
Proof.
  rewrite !toggleTempUnit_eq.
  destruct w as [[d q e u] r p c n]. destruct u; cbn; repeat split; discriminate.
Qed.

(** * The result invariant *)

Lemma handleSearch_keeps_result (v : string) (w : World) :
  shown (ui (handleSearch v w)) = shown (ui w) /\
  settled (handleSearch v w) = settled w.
Proof.
  unfold handleSearch, useEffect, effect. cbn.
  destruct (String.eqb (searchQuery (ui w)) v); [split; reflexivity|].
  destruct (truthy v); split; reflexivity.
Qed.

Lemma toggleTempUnit_keeps_result (w : World) :
  shown (ui (toggleTempUnit w)) = shown (ui w) /\
  settled (toggleTempUnit w) = settled w.
Proof. rewrite toggleTempUnit_eq. split; reflexivity. Qed.

Lemma result_invariant_transport (w w' : World) :
  shown (ui w') = shown (ui w) /\ settled w' = settled w ->
  result_invariant w -> result_invariant w'.
Proof.
  intros [Hs Hn] [I0 I1]. unfold shown in Hs. injection Hs as Hd He.
  unfold result_invariant, exactly_one. rewrite Hd, He, Hn. split; assumption.
Qed.

Lemma settle_result_invariant (i : nat) (o : Outcome) (w : World) :
  result_invariant w -> result_invariant (settle i o w).
Proof.
  intro I. destruct (in_dec Nat.eq_dec i (pending w)) as [Hin|Hn].
  - rewrite settle_pending by assumption. split.
    + destruct o; cbn; discriminate.
    + intros _. destruct o; [left | right]; cbn; split;
        solve [reflexivity | discriminate].
  - rewrite settle_not_pending by assumption. assumption.
Qed.

Lemma run_reachable (es : list Event) (w : World) :
  Reachable w -> Reachable (run es w).
Proof.
  revert w. induction es as [|e es IH]; intros w R; cbn.
  - assumption.
  - apply IH. constructor. assumption.
Qed.

(** C8: in every reachable state the result is empty as long as no fetch has
    resolved, and once one has, exactly one of the stored data and the
    stored error message is present; the two are never present together. *)
Theorem C8_result_invariant (w : World) :
  Reachable w ->
  (settled w = 0%nat -> weatherData (ui w) = None /\ error (ui w) = None) /\
  ((0 < settled w)%nat -> exactly_one (ui w)) /\
  ~ (weatherData (ui w) <> None /\ error (ui w) <> None).
Proof.
  intro R.
  assert (I : result_invariant w).
  { induction R as [|w e R IH].
    - split; [split; reflexivity | cbn; lia].
    - destruct e; cbn.
      + apply (result_invariant_transport w); [apply handleSearch_keeps_result | assumption].
      + apply (result_invariant_transport w); [apply toggleTempUnit_keeps_result | assumption].
      + apply settle_result_invariant. assumption. }
  destruct I as [I0 I1]. repeat split; try assumption.
  - apply I0. assumption.
  - apply I0. assumption.
  - intros [Hd He]. destruct (settled w) as [|n] eqn:En.
    + destruct I0 as [D _]; [reflexivity | contradiction].
    + destruct I1 as [[_ E]|[D _]]; [lia | contradiction | contradiction].
Qed.

Lemma C8_result_invariant_witness :
  Reachable twoSettled /\ settled twoSettled = 2%nat /\ exactly_one (ui twoSettled).
Proof.
  assert (R : Reachable twoSettled) by (apply run_reachable; constructor).
  split; [exact R|]. split; [reflexivity|].
  apply (C8_result_invariant twoSettled R). cbn. lia.
Defined.

(** * The forecast panels *)

Section Panels.

Variables (u : TempUnit) (d : WeatherData).



End Panels.









(** C10: whatever the number of forecast days in the payload, none
    included, a stored snapshot is rendered with one forecast card per
    day; the forecast length reaches neither the error line nor any
    other branch of the view. *)
Theorem C10_one_panel_per_day (s : State) (d : WeatherData) :
  weatherData s = Some d ->
  panels (Rich.Weather s)
    = Some (Rich.currentPanel (tempUnit s) d, Rich.forecastPanels (tempUnit s) d) /\
  List.length (Rich.forecastPanels (tempUnit s) d)
    = List.length (forecastday (forecast d)) /\
  error_p (Rich.Weather s) = errorLine (error s) /\
  panels (Simple.Weather s)
    = Some (Simple.currentPanel (tempUnit s) d, Simple.forecastPanels (tempUnit s) d) /\
  List.length (Simple.forecastPanels (tempUnit s) d)
    = List.length (forecastday (forecast d)) /\
  error_p (Simple.Weather s) = errorLine (error s).
Proof.
  intro Hd. unfold Rich.Weather, Simple.Weather. cbn. rewrite Hd.
  unfold Rich.forecastPanels, Simple.forecastPanels. rewrite !length_map.
  repeat split.
Qed.

Lemma C10_one_panel_per_day_witness :
  weatherData (setWeatherData (Some noForecast) initialState) = Some noForecast /\
  List.length (Rich.forecastPanels C noForecast) = 0%nat /\
  List.length (Rich.forecastPanels F (sampleData "Oslo" 3 sevenDays)) = 7%nat.
Proof.
  split; [reflexivity|]. split.
  - exact (proj1 (proj2 (C10_one_panel_per_day
                           (setWeatherData (Some noForecast) initialState)
                           noForecast eq_refl))).
  - reflexivity.
Defined.

(** * Numbers and their decimal strings *)

Section Decimal.

Lemma to_uint_nonnil (n : N) : N.to_uint n <> Decimal.Nil.
Proof.
  destruct n as [|p]; cbn.
  - discriminate.
  - apply DecimalPos.Unsigned.to_uint_nonnil.
Qed.

Lemma digits_unfold (n : N) :
  digits n = NilEmpty.string_of_uint (N.to_uint n).
Proof.
  unfold digits, NilZero.string_of_uint.
  pose proof (to_uint_nonnil n) as H.
  destruct (N.to_uint n); [contradiction | reflexivity ..].
Qed.

Lemma digits_value_digits (n : N) : digits_value (digits n) = Some n.
Proof.
  unfold digits_value. rewrite digits_unfold, NilEmpty.usu. cbn.
  rewrite DecimalN.Unsigned.of_to. reflexivity.
Qed.

Lemma split_point_uint (d : Decimal.uint) (r : string) :
  split_point (NilEmpty.string_of_uint d ++ String "." r)
  = (NilEmpty.string_of_uint d, Some r).
Proof.
  induction d as [|d IH|d IH|d IH|d IH|d IH|d IH|d IH|d IH|d IH|d IH];
    cbn; [reflexivity | rewrite IH; reflexivity ..].
Qed.

(** A numeral starts with a digit: it is not empty and its first
    character is no sign. *)
Lemma digits_head (n : N) :
  exists c r, digits n = String c r /\
              Ascii.eqb c "-" = false /\ Ascii.eqb c "+" = false /\
              Ascii.eqb c "I" = false.
Proof.
  rewrite digits_unfold. pose proof (to_uint_nonnil n) as H.
  destruct (N.to_uint n); [contradiction | cbn; eexists; eexists; repeat split ..].
Qed.

Lemma digits_one (b : N) : (b < 10)%N -> String.length (digits b) = 1%nat.
Proof.
  intro H.
  assert (E : List.In b [0; 1; 2; 3; 4; 5; 6; 7; 8; 9]%N).
  { cbn. lia. }
  cbn in E. repeat (destruct E as [E|E]; [subst b; reflexivity|]).
  contradiction.
Qed.

Lemma unsigned_value_tenths (a b : N) :
  (b < 10)%N ->
  unsigned_value (digits a ++ "." ++ digits b)
  = Some (inject_Z (Z.of_N a) + (Z.of_N b # 10))%Q.
Proof.
  intro Hb. unfold unsigned_value.
  rewrite (digits_unfold a). cbn [append].
  rewrite split_point_uint. rewrite <- digits_unfold.
  destruct (digits_head a) as (c & r & E & _). rewrite E at 1. cbn [String.eqb andb].
  rewrite !digits_value_digits, digits_one by assumption. reflexivity.
Qed.

End Decimal.

Section Rounding.

Local Open Scope Q_scope.

Lemma tenths_split (n : N) :
  inject_Z (Z.of_N (n / 10)) + (Z.of_N (n mod 10) # 10) == Z.of_N n # 10.
Proof.
  unfold Qeq, Qplus, inject_Z. cbn [Qnum Qden].
  rewrite N2Z.inj_div, N2Z.inj_mod.
  pose proof (Z.div_mod (Z.of_N n) 10) as E.
  change (Z.of_N 10) with 10%Z. lia.
Qed.

Lemma Qnegative_comp (x y : Q) : x == y -> Qnegative x = Qnegative y.
Proof.
  intro E. unfold Qnegative. f_equal.
  destruct (Qle_bool 0 x) eqn:Hx, (Qle_bool 0 y) eqn:Hy; try reflexivity.
  - apply Qle_bool_iff in Hx. rewrite E in Hx. apply Qle_bool_iff in Hx. congruence.
  - apply Qle_bool_iff in Hy. rewrite <- E in Hy. apply Qle_bool_iff in Hy. congruence.
Qed.

(** [round64] depends on the value of the fraction only. *)
Lemma round64_comp (x y : Q) : x == y -> round64 x = round64 y.
Proof.
  intro E. unfold round64.
  rewrite (Qred_complete (Qabs x) (Qabs y)) by (rewrite E; reflexivity).
  rewrite (Qnegative_comp x y E). reflexivity.
Qed.

Lemma split_exponent_uint (d : Decimal.uint) (r : string) :
  split_exponent (NilEmpty.string_of_uint d ++ r)
  = let (a, b) := split_exponent r in (NilEmpty.string_of_uint d ++ a, b)%string.
Proof.
  induction d as [|d IH|d IH|d IH|d IH|d IH|d IH|d IH|d IH|d IH|d IH];
    cbn; [destruct (split_exponent r); reflexivity | ..];
    rewrite IH; destruct (split_exponent r); reflexivity.
Qed.

Lemma append_empty_r (s : string) : s ++ "" = s.
Proof. induction s as [|c s IH]; cbn; [reflexivity | rewrite IH; reflexivity]. Qed.

Lemma split_exponent_tenths (a b : N) :
  split_exponent (digits a ++ "." ++ digits b)
  = ((digits a ++ "." ++ digits b)%string, None).
Proof.
  rewrite (digits_unfold a), split_exponent_uint. cbn [append split_exponent].
  change (Ascii.eqb "." "e" || Ascii.eqb "." "E") with false. cbv iota.
  pose proof (split_exponent_uint (N.to_uint b) "") as H.
  cbn [split_exponent] in H. rewrite !append_empty_r in H.
  rewrite (digits_unfold b), H. reflexivity.
Qed.

Lemma StringToNumber_minus (s : string) :
  StringToNumber (String "-" s) = signed_literal true s.
Proof. reflexivity. Qed.

Lemma StringToNumber_unsigned (c : ascii) (r : string) :
  Ascii.eqb c "-" = false -> Ascii.eqb c "+" = false ->
  StringToNumber (String c r) = signed_literal false (String c r).
Proof. intros Hm Hp. unfold StringToNumber. rewrite Hm, Hp. reflexivity. Qed.

Lemma signed_literal_tenths (negative : bool) (n : N) :
  signed_literal negative (digits (n / 10) ++ "." ++ digits (n mod 10))
  = round64 (signed_tenths negative n).
Proof.
  assert (Hb : (n mod 10 < 10)%N) by (apply N.mod_lt; discriminate).
  unfold signed_literal, decimal_literal.
  rewrite split_exponent_tenths, (unsigned_value_tenths _ _ Hb).
  destruct (digits_head (n / 10)) as (c & r & E & _ & _ & Hi).
  rewrite E at 1. cbn [append String.eqb]. rewrite Hi.
  apply round64_comp. unfold signed_tenths.
  destruct negative; rewrite tenths_split; ring.
Qed.

(** Reading back the string [toFixed(1)] wrote gives the double nearest to
    the tenths it denotes. *)
Lemma StringToNumber_tenths (negative : bool) (n : N) :
  StringToNumber (tenths_string negative n) = round64 (signed_tenths negative n).
Proof.
  destruct negative.
  - change (tenths_string true n)
      with (String "-" (digits (n / 10) ++ "." ++ digits (n mod 10)))%string.
    rewrite StringToNumber_minus. apply signed_literal_tenths.
  - change (tenths_string false n)
      with (digits (n / 10) ++ "." ++ digits (n mod 10))%string.
    destruct (digits_head (n / 10)) as (c & r & E & Hm & Hp & _).
    remember (digits (n / 10) ++ "." ++ digits (n mod 10))%string as s eqn:Es.
    assert (Hs : s = String c (r ++ "." ++ digits (n mod 10))%string).
    { rewrite Es, E. reflexivity. }
    rewrite Hs, (StringToNumber_unsigned _ _ Hm Hp), <- Hs, Es.
    apply signed_literal_tenths.
Qed.

(** [nearest_tenths] is a nearest integer to ten times its argument. *)
Lemma nearest_tenths_close (x : Q) :
  0 <= x -> Qabs ((Z.of_N (nearest_tenths x) # 10) - x) <= 1 # 20.
Proof.
  intro Hx. unfold nearest_tenths.
  set (y := x * 10 + (1 # 2)).
  pose proof (Qfloor_le y) as Hlo. pose proof (Qlt_floor y) as Hhi.
  assert (H0 : (0 <= Qfloor y)%Z).
  { change 0%Z with (Qfloor 0). apply Qfloor_resp_le.
    unfold y. apply Qle_trans with (x * 10 + 0).
    - rewrite Qplus_0_r. apply Qmult_le_0_compat; [assumption | discriminate].
    - apply Qplus_le_r. discriminate. }
  rewrite Z2N.id by assumption.
  set (k := Qfloor y) in *.
  assert (Ek : k # 10 == inject_Z k * (1 # 10)).
  { unfold Qeq, Qmult, inject_Z. cbn. lia. }
  rewrite Ek. apply Qabs_Qle_condition. unfold y in Hlo, Hhi.
  rewrite inject_Z_plus in Hhi. change (inject_Z 1) with 1 in Hhi.
  split; lra.
Qed.

End Rounding.

(** * Rounding to binary64 *)

Local Open Scope Q_scope.

Section Binary64.

Lemma pow2_pos (e : Z) : 0 < pow2 e.
Proof. apply Qpower_0_lt. reflexivity. Qed.

Lemma pow2_le (e1 e2 : Z) : (e1 <= e2)%Z -> pow2 e1 <= pow2 e2.
Proof. intro H. apply Qpower_le_compat_l; [assumption | discriminate]. Qed.

Lemma pow2_lt_inv (e1 e2 : Z) : pow2 e1 < pow2 e2 -> (e1 < e2)%Z.
Proof. intro H. apply (Qpower_lt_compat_l_inv 2); [assumption | reflexivity]. Qed.

Lemma pow2_add (e1 e2 : Z) : pow2 (e1 + e2) == pow2 e1 * pow2 e2.
Proof. apply Qpower_plus. discriminate. Qed.

Lemma pow2_pred (e : Z) : pow2 (e - 1) == pow2 e * (1 # 2).
Proof. unfold Z.sub. rewrite pow2_add. reflexivity. Qed.

Lemma pow2_Z (n : Z) : (0 <= n)%Z -> pow2 n == inject_Z (2 ^ n).
Proof. intro H. unfold pow2. rewrite Zpower_Qpower by assumption. reflexivity. Qed.

(** [floor_log2] is a lower bound of the binary logarithm. *)
Lemma floor_log2_le (a : Q) : 0 < a -> pow2 (floor_log2 a) <= a.
Proof.
  intro Ha. unfold floor_log2.
  set (ln := Z.log2 (Qnum a)). set (ld := Z.log2 (Z.pos (Qden a))).
  destruct (Qle_bool (pow2 (ln - ld)) a) eqn:T.
  - apply Qle_bool_iff. assumption.
  - assert (Hn : (0 < Qnum a)%Z).
    { clear T. unfold Qlt in Ha. cbn [Qnum Qden] in Ha. rewrite Z.mul_0_l, Z.mul_1_r in Ha. exact Ha. }
    pose proof (Z.log2_spec (Qnum a) Hn) as [Hlo _].
    pose proof (Z.log2_spec (Z.pos (Qden a)) (Pos2Z.is_pos _)) as [_ Hhi].
    fold ln in Hlo. fold ld in Hhi.
    assert (Hln : (0 <= ln)%Z) by apply Z.log2_nonneg.
    assert (Hld : (0 <= ld)%Z) by apply Z.log2_nonneg.
    replace (ln - ld - 1)%Z with (ln + - (ld + 1))%Z by lia.
    rewrite pow2_add. unfold pow2 at 2. rewrite Qpower_opp. fold (pow2 (ld + 1)).
    rewrite !pow2_Z by lia.
    assert (Hp : (0 < 2 ^ (ld + 1))%Z) by (apply Z.pow_pos_nonneg; lia).
    assert (Hq : (0 < 2 ^ ln)%Z) by (apply Z.pow_pos_nonneg; lia).
    apply Qle_shift_div_r; [unfold Qlt, inject_Z; cbn [Qnum Qden]; lia|].
    replace (Z.succ ld) with (ld + 1)%Z in Hhi by lia.
    unfold Qle, Qmult, inject_Z. cbn [Qnum Qden].
    rewrite Z.mul_1_r, Pos.mul_1_r.
    apply Z.le_trans with (Qnum a * Z.pos (Qden a))%Z.
    + apply Z.mul_le_mono_nonneg_r; [apply Pos2Z.is_nonneg | exact Hlo].
    + apply Z.mul_le_mono_nonneg_l; [apply Z.lt_le_incl; exact Hn | apply Z.lt_le_incl; exact Hhi].
Qed.

Lemma round_half_even_close (x : Q) :
  Qabs (inject_Z (round_half_even x) - x) <= 1 # 2.
Proof.
  unfold round_half_even.
  pose proof (Qfloor_le x) as Hlo. pose proof (Qlt_floor x) as Hhi.
  rewrite inject_Z_plus in Hhi. change (inject_Z 1) with 1 in Hhi.
  apply Qabs_Qle_condition.
  destruct (x - inject_Z (Qfloor x) ?= 1 # 2) eqn:E.
  - apply Qeq_alt in E. destruct (Z.even (Qfloor x));
      rewrite ?inject_Z_plus; change (inject_Z 1) with 1; split; lra.
  - apply Qlt_alt in E. split; lra.
  - apply Qgt_alt in E. rewrite inject_Z_plus. change (inject_Z 1) with 1. split; lra.
Qed.

(** Below [2^E], inside the normal range, rounding to a double moves a
    value by at most [2^(E-54)] and gives no infinity. *)
Lemma round64_error (x : Q) (E : Z) :
  (-1021 <= E <= 1023)%Z -> Qabs x < pow2 E ->
  exists r, round64 x = Fin r /\ Qabs (r - x) <= pow2 (E - 54).
Proof.
  intros HE Hx. unfold round64, magnitude.
  pose proof (Qred_correct (Qabs x)) as Ea.
  set (a := Qred (Qabs x)) in *.
  pose proof (pow2_pos (E - 54)) as Hpos.
  destruct (Qeq_bool a 0) eqn:Z0.
  - apply Qeq_bool_iff in Z0. exists 0. split; [reflexivity|].
    rewrite Z0 in Ea. 
    assert (Hx0 : x == 0).
    { destruct (Qabs_Qle_condition x 0) as [H _]. 
      assert (Hle : Qabs x <= 0) by (rewrite <- Ea; apply Qle_refl).
      apply H in Hle. lra. }
    rewrite Hx0. cbn. lra.
  - apply Qeq_bool_neq in Z0.
    assert (Ha : 0 < a).
    { pose proof (Qabs_nonneg x). rewrite <- Ea in H. lra. }
    pose proof (floor_log2_le a Ha) as Hlog.
    set (e := floor_log2 a) in *.
    assert (He : (e < E)%Z).
    { apply pow2_lt_inv. rewrite Ea in Hlog. lra. }
    set (p := Z.max (e - 52) (-1074)).
    assert (Hp : (p <= E - 53)%Z) by (unfold p; lia).
    pose proof (round_half_even_close (a / pow2 p)) as Hm.
    set (m := round_half_even (a / pow2 p)) in *.
    pose proof (pow2_pos p) as Hpp.
    assert (Hr : Qabs (inject_Z m * pow2 p - a) <= pow2 (E - 54)).
    { assert (Eq1 : inject_Z m * pow2 p - a == (inject_Z m - a / pow2 p) * pow2 p).
      { field. lra. }
      rewrite Eq1, Qabs_Qmult, (Qabs_pos (pow2 p)) by lra.
      apply Qle_trans with ((1 # 2) * pow2 p).
      - apply Qmult_le_compat_r; [assumption | lra].
      - pose proof (pow2_le p (E - 53) Hp) as Hle.
        replace (E - 54)%Z with (E - 53 - 1)%Z by lia. rewrite pow2_pred. lra. }
    set (r := inject_Z m * pow2 p) in *.
    assert (Hno : Qle_bool (pow2 1024) r = false).
    { destruct (Qle_bool (pow2 1024) r) eqn:T; [|reflexivity].
      apply Qle_bool_iff in T. apply Qabs_Qle_condition in Hr.
      pose proof (pow2_le (E - 54) E ltac:(lia)).
      pose proof (pow2_le (E + 1) 1024 ltac:(lia)) as H1.
      rewrite pow2_add in H1. change (pow2 1) with 2 in H1.
      rewrite Ea in Hr. lra. }
    rewrite Hno. eexists. split; [reflexivity|].
    rewrite Qred_correct. rewrite Ea in Hr.
    destruct (Qnegative x) eqn:N.
    + assert (Hneg : x < 0).
      { unfold Qnegative in N. rewrite negb_true_iff in N.
        apply Qnot_le_lt. intro L. apply Qle_bool_iff in L. congruence. }
      rewrite (Qabs_neg x) in Hr by lra.
      apply Qabs_Qle_condition in Hr. apply Qabs_Qle_condition. split; lra.
    + assert (Hnn : 0 <= x).
      { unfold Qnegative in N. rewrite negb_false_iff in N. apply Qle_bool_iff. assumption. }
      rewrite (Qabs_pos x) in Hr by assumption. assumption.
Qed.

End Binary64.

Section Monotone64.

Lemma Qnegative_lt (x : Q) : Qnegative x = true -> x < 0.
Proof.
  unfold Qnegative. rewrite negb_true_iff. intro H.
  apply Qnot_le_lt. intro L. apply Qle_bool_iff in L. congruence.
Qed.

Lemma Qnegative_ge (x : Q) : Qnegative x = false -> 0 <= x.
Proof.
  unfold Qnegative. rewrite negb_false_iff. apply Qle_bool_iff.
Qed.

Lemma floor_log2_lt (a : Q) : 0 < a -> a < pow2 (floor_log2 a + 1).
Proof.
  intro Ha. unfold floor_log2.
  set (ln := Z.log2 (Qnum a)). set (ld := Z.log2 (Z.pos (Qden a))).
  destruct (Qle_bool (pow2 (ln - ld)) a) eqn:T.
  - assert (Hn : (0 < Qnum a)%Z).
    { clear T. unfold Qlt in Ha. cbn [Qnum Qden] in Ha.
      rewrite Z.mul_0_l, Z.mul_1_r in Ha. exact Ha. }
    pose proof (Z.log2_spec (Qnum a) Hn) as [_ Hhi].
    pose proof (Z.log2_spec (Z.pos (Qden a)) (Pos2Z.is_pos _)) as [Hlo _].
    fold ln in Hhi. fold ld in Hlo.
    assert (Hln : (0 <= ln)%Z) by apply Z.log2_nonneg.
    assert (Hld : (0 <= ld)%Z) by apply Z.log2_nonneg.
    replace (ln - ld + 1)%Z with ((ln + 1) + - ld)%Z by lia.
    rewrite pow2_add. unfold pow2 at 2. rewrite Qpower_opp. fold (pow2 ld).
    rewrite !pow2_Z by lia.
    assert (Hp : (0 < 2 ^ ld)%Z) by (apply Z.pow_pos_nonneg; lia).
    apply Qlt_shift_div_l; [unfold Qlt, inject_Z; cbn [Qnum Qden]; lia|].
    replace (Z.succ ln) with (ln + 1)%Z in Hhi by lia.
    unfold Qlt, Qmult, inject_Z. cbn [Qnum Qden].
    rewrite Z.mul_1_r, Pos.mul_1_r.
    apply Z.le_lt_trans with (Qnum a * Z.pos (Qden a))%Z.
    + apply Z.mul_le_mono_nonneg_l; [apply Z.lt_le_incl; exact Hn | exact Hlo].
    + apply Z.mul_lt_mono_pos_r; [apply Pos2Z.is_pos | exact Hhi].
  - replace (ln - ld - 1 + 1)%Z with (ln - ld)%Z by lia.
    apply Qnot_le_lt. intro L. apply Qle_bool_iff in L. congruence.
Qed.

Lemma floor_log2_mono (a b : Q) :
  0 < a -> a <= b -> (floor_log2 a <= floor_log2 b)%Z.
Proof.
  intros Ha Hab.
  pose proof (floor_log2_le a Ha). pose proof (floor_log2_lt b ltac:(lra)).
  assert (H1 : pow2 (floor_log2 a) < pow2 (floor_log2 b + 1)) by lra.
  apply pow2_lt_inv in H1. lia.
Qed.

Lemma round_half_even_comp (x y : Q) :
  x == y -> round_half_even x = round_half_even y.
Proof.
  intro E. unfold round_half_even.
  rewrite (Qfloor_comp x y E).
  assert (Ec : (x - inject_Z (Qfloor y) ?= 1 # 2) = (y - inject_Z (Qfloor y) ?= 1 # 2)).
  { apply Qcompare_comp; [rewrite E; reflexivity | reflexivity]. }
  rewrite Ec. reflexivity.
Qed.

Lemma round_half_even_mono (x y : Q) :
  x <= y -> (round_half_even x <= round_half_even y)%Z.
Proof.
  intro Hxy.
  destruct (Z.le_gt_cases (round_half_even x) (round_half_even y)) as [H|H];
    [assumption|].
  pose proof (round_half_even_close x) as Hx.
  pose proof (round_half_even_close y) as Hy.
  apply Qabs_Qle_condition in Hx. apply Qabs_Qle_condition in Hy.
  assert (Hz : inject_Z (round_half_even y) + 1 <= inject_Z (round_half_even x)).
  { rewrite <- (inject_Z_plus _ 1). rewrite <- Zle_Qle. lia. }
  assert (E : x == y) by (apply Qle_antisym; lra).
  rewrite (round_half_even_comp x y E) in H. lia.
Qed.

Lemma round_half_even_Z (k : Z) : round_half_even (inject_Z k) = k.
Proof.
  unfold round_half_even. rewrite Qfloor_Z.
  assert (E : (inject_Z k - inject_Z k ?= 1 # 2) = Lt).
  { apply Qlt_alt. unfold Qminus. rewrite Qplus_opp_r. reflexivity. }
  rewrite E. reflexivity.
Qed.

Lemma pow2_sub (e1 e2 : Z) : pow2 (e1 - e2) == pow2 e1 / pow2 e2.
Proof. unfold pow2. apply Qpower_minus. discriminate. Qed.

(** A value no greater than a power of two within reach of its own
    exponent rounds to no more than that power. *)
Lemma magnitude_le_pow2 (a : Q) (k : Z) :
  0 < a -> a <= pow2 k -> (Z.max (floor_log2 a - 52) (-1074) <= k)%Z ->
  magnitude a <= pow2 k.
Proof.
  intros Ha Hk Hp. unfold magnitude.
  set (p := Z.max (floor_log2 a - 52) (-1074)) in *.
  pose proof (pow2_pos p) as Hpp.
  assert (Ek : pow2 k == inject_Z (2 ^ (k - p)) * pow2 p).
  { rewrite <- pow2_Z by lia. rewrite <- pow2_add. 
    replace (k - p + p)%Z with k by lia. reflexivity. }
  rewrite Ek. apply Qmult_le_compat_r; [|lra].
  rewrite <- Zle_Qle. rewrite <- (round_half_even_Z (2 ^ (k - p))).
  apply round_half_even_mono.
  apply Qle_shift_div_r; [assumption|]. rewrite <- Ek. assumption.
Qed.

Lemma magnitude_ge_pow2 (b : Q) :
  0 < b -> (-1074 <= floor_log2 b)%Z -> pow2 (floor_log2 b) <= magnitude b.
Proof.
  intros Hb Hnormal. unfold magnitude.
  pose proof (floor_log2_le b Hb) as Hlo.
  set (e := floor_log2 b) in *.
  set (p := Z.max (e - 52) (-1074)).
  pose proof (pow2_pos p) as Hpp.
  destruct (Z.le_gt_cases p e) as [Hpe|Hpe].
  - assert (Ek : pow2 e == inject_Z (2 ^ (e - p)) * pow2 p).
    { rewrite <- pow2_Z by lia. rewrite <- pow2_add.
      replace (e - p + p)%Z with e by lia. reflexivity. }
    rewrite Ek. apply Qmult_le_compat_r; [|lra].
    rewrite <- Zle_Qle. rewrite <- (round_half_even_Z (2 ^ (e - p))) at 1.
    apply round_half_even_mono.
    apply Qle_shift_div_l; [assumption|]. rewrite <- Ek. assumption.
  - exfalso. unfold p in Hpe. lia.
Qed.

Lemma magnitude_mono (a b : Q) :
  0 < a -> a <= b -> magnitude a <= magnitude b.
Proof.
  intros Ha Hab.
  assert (Hb : 0 < b) by lra.
  pose proof (floor_log2_mono a b Ha Hab) as He.
  set (ea := floor_log2 a) in *. set (eb := floor_log2 b) in *.
  destruct (Z.eq_dec (Z.max (ea - 52) (-1074)) (Z.max (eb - 52) (-1074))) as [Ep|Np].
  - unfold magnitude. fold ea eb. rewrite Ep.
    set (p := Z.max (eb - 52) (-1074)).
    pose proof (pow2_pos p) as Hpp.
    apply Qmult_le_compat_r; [|lra].
    rewrite <- Zle_Qle. apply round_half_even_mono.
    apply Qmult_le_compat_r; [assumption|].
    apply Qlt_le_weak, Qinv_lt_0_compat. assumption.
  - assert (Hlt : (ea < eb)%Z) by lia.
    assert (Hpb : Z.max (eb - 52) (-1074) = (eb - 52)%Z) by lia.
    apply Qle_trans with (pow2 eb).
    + apply magnitude_le_pow2; [assumption | | fold ea; lia].
      pose proof (floor_log2_lt a Ha) as H1. fold ea in H1.
      pose proof (pow2_le (ea + 1) eb ltac:(lia)). lra.
    + apply magnitude_ge_pow2; [assumption | fold eb; lia].
Qed.

Lemma magnitude_nonneg (a : Q) : 0 < a -> 0 <= magnitude a.
Proof.
  intro Ha. unfold magnitude.
  set (p := Z.max (floor_log2 a - 52) (-1074)).
  pose proof (pow2_pos p) as Hpp.
  apply Qmult_le_0_compat; [|lra].
  change 0 with (inject_Z 0). rewrite <- Zle_Qle.
  rewrite <- (round_half_even_Z 0). apply round_half_even_mono.
  change (inject_Z 0) with 0. apply Qle_shift_div_l; lra.
Qed.

(** The finite results of [round64]: zero for zero, and otherwise the
    rounded magnitude under the sign of the argument. *)
Lemma round64_Fin (x r : Q) :
  round64 x = Fin r ->
  (x == 0 /\ r == 0) \/
  (~ x == 0 /\
   r == if Qnegative x then - magnitude (Qred (Qabs x)) else magnitude (Qred (Qabs x))).
Proof.
  unfold round64.
  destruct (Qeq_bool (Qred (Qabs x)) 0) eqn:Z0.
  - intros [= <-]. left. split; [|reflexivity].
    apply Qeq_bool_iff in Z0. rewrite Qred_correct in Z0.
    destruct (Qabs_Qle_condition x 0) as [H _].
    assert (Hle : Qabs x <= 0) by (rewrite Z0; apply Qle_refl).
    apply H in Hle. apply Qle_antisym; lra.
  - destruct (Qle_bool (pow2 1024) (magnitude (Qred (Qabs x)))); [discriminate|].
    intros [= <-]. right. split.
    + intro E. apply Qeq_bool_neq in Z0. apply Z0.
      rewrite Qred_correct, E. reflexivity.
    + rewrite Qred_correct. reflexivity.
Qed.

(** Rounding to a double keeps the order of finite results. *)
Lemma round64_mono (x y rx ry : Q) :
  x <= y -> round64 x = Fin rx -> round64 y = Fin ry -> rx <= ry.
Proof.
  intros Hxy Ex Ey.
  apply round64_Fin in Ex. apply round64_Fin in Ey.
  pose proof (Qred_correct (Qabs x)) as Eax.
  pose proof (Qred_correct (Qabs y)) as Eay.
  destruct Ex as [[X0 Rx]|[Xn Rx]], Ey as [[Y0 Ry]|[Yn Ry]].
  - rewrite Rx, Ry. apply Qle_refl.
  - rewrite Rx, Ry. destruct (Qnegative y) eqn:Ny.
    + apply Qnegative_lt in Ny. lra.
    + apply magnitude_nonneg. apply Qnegative_ge in Ny.
      rewrite Eay, (Qabs_pos y) by assumption.
      destruct (Qlt_le_dec 0 y) as [H|H]; [assumption|].
      exfalso. apply Yn. apply Qle_antisym; assumption.
  - rewrite Rx, Ry. destruct (Qnegative x) eqn:Nx.
    + apply Qnegative_lt in Nx.
      assert (0 <= magnitude (Qred (Qabs x))).
      { apply magnitude_nonneg. rewrite Eax, (Qabs_neg x) by lra. lra. }
      lra.
    + apply Qnegative_ge in Nx. exfalso. apply Xn. apply Qle_antisym; lra.
  - rewrite Rx, Ry.
    destruct (Qnegative x) eqn:Nx, (Qnegative y) eqn:Ny.
    + apply Qnegative_lt in Nx, Ny.
      assert (magnitude (Qred (Qabs y)) <= magnitude (Qred (Qabs x))).
      { apply magnitude_mono; rewrite ?Eax, ?Eay, !Qabs_neg by lra; lra. }
      lra.
    + apply Qnegative_lt in Nx. apply Qnegative_ge in Ny.
      assert (0 <= magnitude (Qred (Qabs x))).
      { apply magnitude_nonneg. rewrite Eax, (Qabs_neg x) by lra. lra. }
      assert (0 <= magnitude (Qred (Qabs y))).
      { apply magnitude_nonneg. rewrite Eay, (Qabs_pos y) by lra.
        destruct (Qlt_le_dec 0 y) as [H'|H']; [assumption|].
        exfalso. apply Yn. apply Qle_antisym; assumption. }
      lra.
    + apply Qnegative_ge in Nx. apply Qnegative_lt in Ny. lra.
    + apply Qnegative_ge in Nx, Ny.
      apply magnitude_mono; rewrite ?Eax, ?Eay, !Qabs_pos by lra.
      * destruct (Qlt_le_dec 0 x) as [H'|H']; [assumption|].
        exfalso. apply Xn. apply Qle_antisym; assumption.
      * assumption.
Qed.

End Monotone64.

Local Close Scope Q_scope.

(** * Temperature conversion *)

Section Conversion.

Local Open Scope Q_scope.

(** The number a [toFixed(1)] string denotes is within a twentieth of the
    number it was made from. *)
Lemma signed_tenths_close (x : Q) :
  Qabs (signed_tenths (Qnegative x) (nearest_tenths (Qabs x)) - x) <= 1 # 20.
Proof.
  pose proof (nearest_tenths_close (Qabs x) (Qabs_nonneg x)) as H.
  set (t := Z.of_N (nearest_tenths (Qabs x)) # 10) in *.
  unfold signed_tenths. fold t. destruct (Qnegative x) eqn:E.
  - apply Qnegative_lt in E.
    rewrite (Qabs_neg x) in H by (apply Qlt_le_weak; assumption).
    apply Qabs_Qle_condition in H. apply Qabs_Qle_condition. split; lra.
  - apply Qnegative_ge in E.
    rewrite (Qabs_pos x) in H by assumption.
    apply Qabs_Qle_condition in H. apply Qabs_Qle_condition. split; lra.
Qed.





(** In the richer variant the current temperature is shown as stored in
    Celsius and converted once in Fahrenheit. *)
Lemma rich_current_temperature (d : WeatherData) :
  cur_temp (Rich.currentPanel C d) = VNum (temp_c (current d)) /\
  cur_temp (Rich.currentPanel F d) = VStr (toFahrenheit (temp_c (current d))).
Proof. split; reflexivity. Qed.

(** In the richer variant a forecast card in Fahrenheit shows the
    conversion of the already converted prop. *)
Lemma rich_card_fahrenheit (e : ForecastDay) :
  card_max (Rich.ForecastCard (Rich.cardProps F e))
  = VStr (toFahrenheit (Number (VStr (toFahrenheit (maxtemp_c (day e)))))) /\
  card_min (Rich.ForecastCard (Rich.cardProps F e))
  = VStr (toFahrenheit (Number (VStr (toFahrenheit (mintemp_c (day e)))))).
Proof. split; reflexivity. Qed.

(** In the simpler variant a forecast card shows the Celsius props whatever
    the unit. *)
Lemma simple_card_any_unit (u : TempUnit) (e : ForecastDay) :
  card_max (Simple.ForecastCard (Simple.cardProps u e)) = VNum (maxtemp_c (day e)) /\
  card_min (Simple.ForecastCard (Simple.cardProps u e)) = VNum (mintemp_c (day e)).
Proof. destruct u; split; reflexivity. Qed.

(** C2, evaluated on Tokyo's snapshot (current 20, first day 20 / 10) with
    the unit set to Fahrenheit.  The richer variant shows the current
    temperature as "68.0", but the first forecast card shows "154.4" and
    "122.0" where the conversions of 20 and 10 are "68.0" and "50.0"; the
    simpler variant shows 20 and 10 under the unit F.  In Celsius both show
    the stored values. *)
Theorem C2_fahrenheit_rendering :
  temp_c (current tokyo) = Fin 20 /\
  option_map (fun e => (maxtemp_c (day e), mintemp_c (day e)))
    (nth_error (forecastday (forecast tokyo)) 0) = Some (Fin 20, Fin 10) /\
  toFahrenheit (Fin 20) = "68.0"%string /\
  toFahrenheit (Fin 10) = "50.0"%string /\
  option_map (fun p => cur_temp (fst p)) (panels (Rich.Weather tokyoInFahrenheit))
    = Some (VStr "68.0") /\
  option_map (fun p => option_map (fun c => (card_max c, card_min c, card_unit c))
                         (nth_error (snd p) 0))
    (panels (Rich.Weather tokyoInFahrenheit))
    = Some (Some (VStr "154.4", VStr "122.0", F)) /\
  option_map (fun p => option_map (fun c => (card_max c, card_min c, card_unit c))
                         (nth_error (snd p) 0))
    (panels (Simple.Weather tokyoInFahrenheit))
    = Some (Some (VNum (Fin 20), VNum (Fin 10), F)) /\
  option_map (fun c => (card_max c, card_min c, card_unit c))
    (nth_error (Rich.forecastPanels C tokyo) 0)
    = Some (VNum (Fin 20), VNum (Fin 10), C).
Proof. repeat split. Qed.

End Conversion.

(** * The condition animation *)

Section Animation.

Lemma lower_ascii_idempotent (c : ascii) : lower_ascii (lower_ascii c) = lower_ascii c.
Proof.
  destruct c as [[|] [|] [|] [|] [|] [|] [|] [|]]; reflexivity.
Qed.

Lemma toLowerCase_idempotent (s : string) : toLowerCase (toLowerCase s) = toLowerCase s.
Proof.
  induction s as [|c r IH]; cbn.
  - reflexivity.
  - rewrite lower_ascii_idempotent, IH. reflexivity.
Qed.

Lemma toLowerCase_length (s : string) :
  String.length (toLowerCase s) = String.length s.
Proof.
  induction s as [|c r IH]; cbn; [reflexivity | rewrite IH; reflexivity].
Qed.

Lemma getWeatherAnimation_word (s : string) (a : Animation) :
  Rich.getWeatherAnimation s = Some a <-> toLowerCase s = animationWord a.
Proof.
  unfold Rich.getWeatherAnimation. split.
  - destruct (String.eqb_spec (toLowerCase s) "sunny") as [E1|E1];
      [intros [= <-]; exact E1|].
    destruct (String.eqb_spec (toLowerCase s) "cloudy") as [E2|E2];
      [intros [= <-]; exact E2|].
    destruct (String.eqb_spec (toLowerCase s) "rain") as [E3|E3];
      [intros [= <-]; exact E3 | discriminate].
  - intro E. rewrite E. destruct a; reflexivity.
Qed.

End Animation.

(** X1: [getWeatherAnimation] returns an animation exactly when the
    condition text, lower-cased, is the whole word of that animation
    ("sunny", "cloudy" or "rain"); the case of the letters does not matter,
    and a text of another length, such as a multi-word condition, gets no
    animation. *)
Theorem X1_animation_exact_word (s : string) (a : Animation) :
  (Rich.getWeatherAnimation s = Some a <-> toLowerCase s = animationWord a) /\
  Rich.getWeatherAnimation (toLowerCase s) = Rich.getWeatherAnimation s /\
  (Rich.getWeatherAnimation s = Some a ->
   String.length s = String.length (animationWord a)) /\
  (String.length s < 4 \/ 6 < String.length s ->
   Rich.getWeatherAnimation s = None)%nat.
Proof.
  split; [apply getWeatherAnimation_word|]. split.
  - unfold Rich.getWeatherAnimation. rewrite toLowerCase_idempotent. reflexivity.
  - split.
    + intro H. apply getWeatherAnimation_word in H.
      rewrite <- H. symmetry. apply toLowerCase_length.
    + intro H. destruct (Rich.getWeatherAnimation s) as [b|] eqn:E; [|reflexivity].
      apply getWeatherAnimation_word in E.
      apply (f_equal String.length) in E. rewrite toLowerCase_length in E.
      destruct b; cbn in E; lia.
Qed.

Lemma X1_animation_exact_word_witness :
  Rich.getWeatherAnimation "SuNnY" = Some Sun /\
  String.length "SuNnY" = String.length (animationWord Sun) /\
  (6 < String.length "Partly cloudy")%nat /\
  Rich.getWeatherAnimation "Partly cloudy" = None.
Proof.
  assert (H : Rich.getWeatherAnimation "SuNnY" = Some Sun) by reflexivity.
  split; [exact H|]. split.
  - exact (proj1 (proj2 (proj2 (X1_animation_exact_word "SuNnY" Sun))) H).
  - assert (L : (6 < String.length "Partly cloudy")%nat) by (cbn; lia).
    split; [exact L|].
    exact (proj2 (proj2 (proj2 (X1_animation_exact_word "Partly cloudy" Sun)))
             (or_intror L)).
Defined.

(** * What a toggle and a submission leave on screen *)

Section Screen.

Variable w : World.

Lemma toggleTempUnit_unit : tempUnit (ui (toggleTempUnit w)) = otherUnit (tempUnit (ui w)).
Proof. rewrite toggleTempUnit_eq. reflexivity. Qed.

Lemma toggleTempUnit_data : weatherData (ui (toggleTempUnit w)) = weatherData (ui w).
Proof. rewrite toggleTempUnit_eq. reflexivity. Qed.

Lemma toggleTempUnit_error : error (ui (toggleTempUnit w)) = error (ui w).
Proof. rewrite toggleTempUnit_eq. reflexivity. Qed.

Lemma switchLabel_other (u : TempUnit) : switchLabel (otherUnit u) <> switchLabel u.
Proof. destruct u; discriminate. Qed.

Lemma rich_card_readings (u : TempUnit) (e : ForecastDay) :
  cardReadings (Rich.ForecastCard (Rich.cardProps u e))
  = (date e, icon (day_condition (day e)),
     text (day_condition (day e)), text (day_condition (day e))).
Proof. reflexivity. Qed.

Lemma simple_card_readings (u : TempUnit) (e : ForecastDay) :
  cardReadings (Simple.ForecastCard (Simple.cardProps u e))
  = (date e, icon (day_condition (day e)),
     text (day_condition (day e)), text (day_condition (day e))).
Proof. reflexivity. Qed.

Lemma rich_forecast_readings (u : TempUnit) (d : WeatherData) :
  List.map cardReadings (Rich.forecastPanels u d)
  = List.map cardReadings (Rich.forecastPanels C d).
Proof.
  unfold Rich.forecastPanels. rewrite !map_map. apply map_ext. intro e.
  rewrite !rich_card_readings. reflexivity.
Qed.

Lemma simple_forecast_readings (u : TempUnit) (d : WeatherData) :
  List.map cardReadings (Simple.forecastPanels u d)
  = List.map cardReadings (Simple.forecastPanels C d).
Proof.
  unfold Simple.forecastPanels. rewrite !map_map. apply map_ext. intro e.
  rewrite !simple_card_readings. reflexivity.
Qed.

Lemma rich_readings_any_unit (s : State) (u : TempUnit) :
  panelReadings (Rich.Weather (setTempUnit u s)) = panelReadings (Rich.Weather s).
Proof.
  unfold panelReadings, Rich.Weather. cbn.
  destruct (weatherData s) as [d|]; cbn; [|reflexivity].
  rewrite (rich_forecast_readings u), (rich_forecast_readings (tempUnit s)).
  reflexivity.
Qed.

Lemma simple_readings_any_unit (s : State) (u : TempUnit) :
  panelReadings (Simple.Weather (setTempUnit u s)) = panelReadings (Simple.Weather s).
Proof.
  unfold panelReadings, Simple.Weather. cbn.
  destruct (weatherData s) as [d|]; cbn; [|reflexivity].
  rewrite (simple_forecast_readings u), (simple_forecast_readings (tempUnit s)).
  reflexivity.
Qed.

End Screen.

(** X2: in the richer variant a unit toggle changes the button label and
    the unit of the panels and nothing else besides the temperature values:
    the heading, the animation, the condition image and text, wind,
    precipitation, UV index, humidity and visibility, the date, image and
    condition of every forecast card, the number and order of the cards and
    the error line are the same before and after. *)
Theorem X2_rich_toggle_keeps_readings (w : World) :
  panelReadings (Rich.Weather (ui (toggleTempUnit w)))
    = panelReadings (Rich.Weather (ui w)) /\
  error_p (Rich.Weather (ui (toggleTempUnit w))) = error_p (Rich.Weather (ui w)) /\
  button_label (Rich.Weather (ui (toggleTempUnit w)))
    = switchLabel (otherUnit (tempUnit (ui w))) /\
  button_label (Rich.Weather (ui (toggleTempUnit w)))
    <> button_label (Rich.Weather (ui w)) /\
  option_map (fun p => (cur_unit (fst p), List.map card_unit (snd p)))
    (panels (Rich.Weather (ui (toggleTempUnit w))))
  = option_map (fun p => (otherUnit (cur_unit (fst p)),
                          List.map (fun c => otherUnit (card_unit c)) (snd p)))
      (panels (Rich.Weather (ui w))).
Proof.
  rewrite toggleTempUnit_eq. cbn [ui with_ui].
  split; [apply rich_readings_any_unit|].
  split; [reflexivity|]. split; [reflexivity|].
  split; [apply switchLabel_other|].
  unfold Rich.Weather. cbn. destruct (weatherData (ui w)) as [d|]; cbn; [|reflexivity].
  unfold Rich.forecastPanels. rewrite !map_map. reflexivity.
Qed.

(** X3: in the simpler variant too a unit toggle leaves every reading that
    is not a temperature, the cards' dates, images and conditions, their
    number and order and the error line as they were; the current
    temperature shown is the payload's [temp_c] in Celsius and the payload's
    own [temp_f] in Fahrenheit. *)
Theorem X3_simple_toggle_keeps_readings (w : World) :
  panelReadings (Simple.Weather (ui (toggleTempUnit w)))
    = panelReadings (Simple.Weather (ui w)) /\
  error_p (Simple.Weather (ui (toggleTempUnit w))) = error_p (Simple.Weather (ui w)) /\
  button_label (Simple.Weather (ui (toggleTempUnit w)))
    <> button_label (Simple.Weather (ui w)) /\
  option_map (fun p => cur_temp (fst p)) (panels (Simple.Weather (ui w)))
  = option_map (fun d => VNum (match tempUnit (ui w) with
                               | C => temp_c (current d)
                               | F => temp_f (current d)
                               end))
      (weatherData (ui w)).
Proof.
  rewrite toggleTempUnit_eq. cbn [ui with_ui].
  split; [apply simple_readings_any_unit|].
  split; [reflexivity|].
  split; [apply switchLabel_other|].
  unfold Simple.Weather. cbn. destruct (weatherData (ui w)); reflexivity.
Qed.

(** X4: a submission changes nothing on screen.  Whatever text is
    submitted, both variants render after [handleSearch] exactly what they
    rendered before: the previous weather or the previous error message
    stays until a response arrives, and the display unit is kept. *)
Theorem X4_submission_keeps_view (v : string) (w : World) :
  Rich.Weather (ui (handleSearch v w)) = Rich.Weather (ui w) /\
  Simple.Weather (ui (handleSearch v w)) = Simple.Weather (ui w) /\
  tempUnit (ui (handleSearch v w)) = tempUnit (ui w).
Proof.
  unfold handleSearch, useEffect, effect. cbn.
  destruct (String.eqb (searchQuery (ui w)) v); [repeat split|].
  destruct (truthy v); repeat split.
Qed.

(** X5: the unit toggle is independent of the fetch cycle: toggling before
    or after a submission, and before or after a response, gives the same
    component. *)
Theorem X5_toggle_commutes (w : World) (v : string) (i : nat) (o : Outcome) :
  toggleTempUnit (handleSearch v w) = handleSearch v (toggleTempUnit w) /\
  toggleTempUnit (settle i o w) = settle i o (toggleTempUnit w).
Proof.
  rewrite !toggleTempUnit_eq. split.
  - unfold handleSearch, useEffect, effect. cbn.
    destruct (String.eqb (searchQuery (ui w)) v); [reflexivity|].
    destruct (truthy v); reflexivity.
  - unfold settle. cbn [pending with_ui].
    destruct (existsb (Nat.eqb i) (pending w)); [|reflexivity].
    unfold useEffect. destruct o; cbn; rewrite !String.eqb_refl; reflexivity.
Qed.

(** X6: a response never issues a request and never touches the query or
    the display unit: whatever promise settles and however, the requests
    issued, the stored query and the unit are as before (no retry). *)
Theorem X6_response_never_fetches (w : World) (i : nat) (o : Outcome) :
  requests (settle i o w) = requests w /\
  searchQuery (ui (settle i o w)) = searchQuery (ui w) /\
  tempUnit (ui (settle i o w)) = tempUnit (ui w).
Proof.
  unfold settle. destruct (existsb (Nat.eqb i) (pending w)); [|repeat split].
  unfold useEffect. destruct o; cbn; rewrite String.eqb_refl; repeat split.
Qed.

(** * Responses on screen *)

(** X7: when a pending fetch is fulfilled, the payload is stored, any
    previous error is cleared and nothing is written to the console; both
    variants then show no error line and the panels of that payload in the
    current unit. *)
Theorem X7_success_replaces_error (w : World) (i : nat) (d : WeatherData) :
  In i (pending w) ->
  let w' := settle i (Fulfilled d) w in
  weatherData (ui w') = Some d /\
  error (ui w') = None /\
  console w' = console w /\
  error_p (Rich.Weather (ui w')) = None /\
  panels (Rich.Weather (ui w'))
    = Some (Rich.currentPanel (tempUnit (ui w)) d,
            Rich.forecastPanels (tempUnit (ui w)) d) /\
  error_p (Simple.Weather (ui w')) = None /\
  panels (Simple.Weather (ui w'))
    = Some (Simple.currentPanel (tempUnit (ui w)) d,
            Simple.forecastPanels (tempUnit (ui w)) d).
Proof.
  intros Hin w'. unfold w'. rewrite settle_pending by assumption.
  repeat split.
Qed.

Lemma X7_success_replaces_error_witness :
  In 1%nat (pending nowherelandThenLondon) /\
  error (ui nowherelandThenLondon) = Some "Location is not available" /\
  weatherData (ui (settle 1 (Fulfilled london) nowherelandThenLondon)) = Some london /\
  error (ui (settle 1 (Fulfilled london) nowherelandThenLondon)) = None.
Proof.
  assert (Hin : In 1%nat (pending nowherelandThenLondon)) by (left; reflexivity).
  split; [exact Hin|]. split; [reflexivity|].
  pose proof (X7_success_replaces_error nowherelandThenLondon 1%nat london Hin) as T.
  cbv zeta in T. destruct T as (Td & Te & _).
  split; [exact Td | exact Te].
Defined.

Section Invariants.

(** The three shapes the two result cells take. *)
Lemma reachable_shown (w : World) :
  Reachable w ->
  shown (ui w) = (None, None) \/
  (exists d, shown (ui w) = (Some d, None)) \/
  shown (ui w) = (None, Some "Location is not available").
Proof.
  induction 1 as [|w e R IH].
  - left. reflexivity.
  - destruct e as [v| |i o]; cbn [step].
    + rewrite (proj1 (handleSearch_keeps_result v w)). assumption.
    + rewrite (proj1 (toggleTempUnit_keeps_result w)). assumption.
    + destruct (in_dec Nat.eq_dec i (pending w)) as [Hin|Hn].
      * rewrite settle_shown by assumption.
        destruct o as [d|err]; cbn; [right; left; exists d|right; right]; reflexivity.
      * rewrite settle_not_pending by assumption. assumption.
Qed.

Lemma handleSearch_requests (v : string) (w : World) :
  requests (handleSearch v w) =
  (requests w ++
   if truthy v && negb (String.eqb v (searchQuery (ui w)))
   then [forecastUrl v] else [])%list.
Proof.
  unfold handleSearch, useEffect, effect. cbn.
  rewrite (String.eqb_sym v).
  destruct (String.eqb (searchQuery (ui w)) v); cbn.
  - rewrite andb_false_r, app_nil_r. reflexivity.
  - rewrite andb_true_r. destruct (truthy v); cbn; [|rewrite app_nil_r]; reflexivity.
Qed.

Lemma handleSearch_query (v : string) (w : World) :
  searchQuery (ui (handleSearch v w)) = v.
Proof.
  unfold handleSearch, useEffect, effect. cbn.
  destruct (String.eqb (searchQuery (ui w)) v); [reflexivity|].
  destruct (truthy v); reflexivity.
Qed.

Lemma settle_requests (i : nat) (o : Outcome) (w : World) :
  requests (settle i o w) = requests w /\
  searchQuery (ui (settle i o w)) = searchQuery (ui w).
Proof.
  unfold settle. destruct (existsb (Nat.eqb i) (pending w)); [|split; reflexivity].
  unfold useEffect. destruct o; cbn; rewrite String.eqb_refl; split; reflexivity.
Qed.

Lemma toggleTempUnit_requests (w : World) :
  requests (toggleTempUnit w) = requests w /\
  searchQuery (ui (toggleTempUnit w)) = searchQuery (ui w).
Proof. rewrite toggleTempUnit_eq. split; reflexivity. Qed.

End Invariants.

(** X8: in every reachable state the error cell is either null or exactly
    "Location is not available", the error line on screen is that cell, and
    no variant ever shows the error line together with the weather panels. *)
Theorem X8_error_or_panels (w : World) :
  Reachable w ->
  (error (ui w) = None \/ error (ui w) = Some "Location is not available") /\
  error_p (Rich.Weather (ui w)) = error (ui w) /\
  error_p (Simple.Weather (ui w)) = error (ui w) /\
  (error_p (Rich.Weather (ui w)) = None \/ panels (Rich.Weather (ui w)) = None) /\
  (error_p (Simple.Weather (ui w)) = None \/ panels (Simple.Weather (ui w)) = None).
Proof.
  intro R. unfold Rich.Weather, Simple.Weather. cbn.
  destruct (reachable_shown w R) as [H|[[d H]|H]];
    unfold shown in H; injection H as Hd He; rewrite Hd, He; cbn;
    repeat split; auto.
Qed.

Lemma X8_error_or_panels_witness :
  Reachable twoSettled /\
  error_p (Rich.Weather (ui twoSettled)) = Some "Location is not available" /\
  panels (Rich.Weather (ui twoSettled)) = None.
Proof.
  assert (R : Reachable twoSettled) by (apply run_reachable; constructor).
  split; [exact R|].
  destruct (X8_error_or_panels twoSettled R) as (_ & _ & _ & [H|H] & _).
  - discriminate H.
  - split; [reflexivity | exact H].
Defined.

(** X9: the component never requests the forecast of the empty text:
    every URL it has handed to [axios.get] in a reachable state is the
    forecast URL of some non-empty query. *)
Theorem X9_no_request_for_empty_query (w : World) :
  Reachable w ->
  Forall (fun url => exists q, q <> "" /\ url = forecastUrl q) (requests w).
Proof.
  induction 1 as [|w e R IH].
  - constructor.
  - destruct e as [v| |i o]; cbn [step].
    + rewrite handleSearch_requests. apply Forall_app. split; [assumption|].
      destruct (truthy v) eqn:T; cbn; [|constructor].
      destruct (String.eqb v (searchQuery (ui w))); cbn; constructor; [|constructor].
      exists v. split; [apply truthy_nonempty; assumption | reflexivity].
    + rewrite (proj1 (toggleTempUnit_requests w)). assumption.
    + rewrite (proj1 (settle_requests i o w)). assumption.
Qed.

Lemma X9_no_request_for_empty_query_witness :
  Reachable nowherelandThenLondon /\
  requests nowherelandThenLondon = [forecastUrl "Nowhereland"; forecastUrl "London"] /\
  Forall (fun url => exists q, q <> "" /\ url = forecastUrl q)
    (requests nowherelandThenLondon).
Proof.
  assert (R : Reachable nowherelandThenLondon) by (apply run_reachable; constructor).
  split; [exact R|]. split; [reflexivity|].
  exact (X9_no_request_for_empty_query nowherelandThenLondon R).
Defined.

(** X10: in every reachable state with a non-empty stored query, the
    request issued last is the one for that query. *)
Theorem X10_last_request_is_current_query (w : World) :
  Reachable w ->
  searchQuery (ui w) <> "" ->
  List.last (requests w) "" = forecastUrl (searchQuery (ui w)).
Proof.
  induction 1 as [|w e R IH].
  - intro H. contradiction H. reflexivity.
  - destruct e as [v| |i o]; cbn [step].
    + rewrite handleSearch_requests, handleSearch_query. intro Hv.
      apply truthy_nonempty in Hv. rewrite Hv. cbn [andb].
      destruct (String.eqb_spec v (searchQuery (ui w))) as [E|E]; cbn [negb].
      * rewrite app_nil_r. subst v. apply IH. apply truthy_nonempty. assumption.
      * apply last_last.
    + rewrite (proj1 (toggleTempUnit_requests w)), (proj2 (toggleTempUnit_requests w)).
      assumption.
    + rewrite (proj1 (settle_requests i o w)), (proj2 (settle_requests i o w)).
      assumption.
Qed.

Lemma X10_last_request_is_current_query_witness :
  Reachable nowherelandThenLondon /\
  searchQuery (ui nowherelandThenLondon) <> "" /\
  List.last (requests nowherelandThenLondon) "" = forecastUrl "London".
Proof.
  assert (R : Reachable nowherelandThenLondon) by (apply run_reachable; constructor).
  assert (Q : searchQuery (ui nowherelandThenLondon) <> "") by discriminate.
  split; [exact R|]. split; [exact Q|].
  exact (X10_last_request_is_current_query nowherelandThenLondon R Q).
Defined.

(** X11: whatever the events, the requests issued during them are at most
    as many as the submissions of a non-empty text among them: toggles and
    responses issue none and a submission at most one. *)
Theorem X11_requests_bounded_by_submissions (es : list Event) (w : World) :
  (List.length (requests (run es w)) <= List.length (requests w) + submissions es)%nat.
Proof.
  revert w. induction es as [|e es IH]; intro w; cbn [run fold_left].
  - unfold submissions. cbn. lia.
  - specialize (IH (step w e)). unfold run in IH.
    assert (Hs : (List.length (requests (step w e))
                  <= List.length (requests w) + (if isSubmission e then 1 else 0))%nat).
    { destruct e as [v| |i o]; cbn [step isSubmission].
      - rewrite handleSearch_requests, length_app.
        destruct (truthy v); cbn; [|lia].
        destruct (String.eqb v (searchQuery (ui w))); cbn; lia.
      - rewrite (proj1 (toggleTempUnit_requests w)). lia.
      - rewrite (proj1 (settle_requests i o w)). lia. }
    unfold submissions in *. cbn [filter].
    destruct (isSubmission e); cbn [List.length]; lia.
Qed.

(** * Request URLs *)

Section Urls.

Lemma append_length (a b : string) :
  String.length (a ++ b) = (String.length a + String.length b)%nat.
Proof. induction a as [|c a IH]; cbn; [reflexivity | rewrite IH; reflexivity]. Qed.

Lemma append_inv_head (p a b : string) : p ++ a = p ++ b -> a = b.
Proof.
  induction p as [|c p IH]; cbn; intro H; [assumption|].
  injection H as H. apply IH. assumption.
Qed.

Lemma append_inv_tail (s a b : string) : a ++ s = b ++ s -> a = b.
Proof.
  revert b. induction a as [|c a IH]; intros [|c' b] H; cbn in H.
  - reflexivity.
  - apply (f_equal String.length) in H. cbn in H. rewrite append_length in H. lia.
  - apply (f_equal String.length) in H. cbn in H. rewrite append_length in H. lia.
  - injection H as Hc H. subst c'. f_equal. apply IH. assumption.
Qed.

End Urls.

(** X12: the query is spliced into the URL as it is, so two submissions
    are requested under the same URL only if their texts are the same. *)
Theorem X12_forecastUrl_injective (q1 q2 : string) :
  forecastUrl q1 = forecastUrl q2 -> q1 = q2.
Proof.
  unfold forecastUrl. intro H.
  apply append_inv_head in H. apply append_inv_tail in H. assumption.
Qed.

Lemma X12_forecastUrl_injective_witness :
  forecastUrl "Paris" = forecastUrl ("Par" ++ "is") /\ "Paris" = "Par" ++ "is".
Proof.
  assert (H : forecastUrl "Paris" = forecastUrl ("Par" ++ "is")) by reflexivity.
  split; [exact H|].
  exact (X12_forecastUrl_injective "Paris" ("Par" ++ "is") H).
Defined.

(** * Unit and query along a run *)

Section Runs.

Lemma step_query (w : World) (e : Event) :
  searchQuery (ui (step w e))
  = match e with Submit value => value | _ => searchQuery (ui w) end.
Proof.
  destruct e as [v| |i o]; cbn [step].
  - apply handleSearch_query.
  - apply toggleTempUnit_requests.
  - apply settle_requests.
Qed.

Lemma step_unit (w : World) (e : Event) :
  tempUnit (ui (step w e))
  = if isToggle e then otherUnit (tempUnit (ui w)) else tempUnit (ui w).
Proof.
  destruct e as [v| |i o]; cbn [step isToggle].
  - unfold handleSearch, useEffect, effect. cbn.
    destruct (String.eqb (searchQuery (ui w)) v); [reflexivity|].
    destruct (truthy v); reflexivity.
  - apply toggleTempUnit_unit.
  - unfold settle. destruct (existsb (Nat.eqb i) (pending w)); [|reflexivity].
    unfold useEffect. destruct o; cbn; rewrite String.eqb_refl; reflexivity.
Qed.

Lemma otherUnit_involutive (u : TempUnit) : otherUnit (otherUnit u) = u.
Proof. destruct u; reflexivity. Qed.

End Runs.

(** X13: along any sequence of events only the toggles change the display
    unit: submissions and responses keep it, and at the end the unit is the
    initial one when the number of toggles is even and the other one when
    it is odd. *)
Theorem X13_unit_follows_toggles (es : list Event) (w : World) :
  tempUnit (ui (run es w))
  = if Nat.even (toggles es) then tempUnit (ui w) else otherUnit (tempUnit (ui w)).
Proof.
  revert w. induction es as [|e es IH]; intro w; cbn [run fold_left].
  - reflexivity.
  - specialize (IH (step w e)). unfold run in IH. rewrite IH, step_unit.
    unfold toggles. cbn [filter]. destruct (isToggle e); cbn [List.length].
    + rewrite Nat.even_succ, <- Nat.negb_even.
      destruct (Nat.even (List.length (filter isToggle es))); cbn;
        rewrite ?otherUnit_involutive; reflexivity.
    + reflexivity.
Qed.

(** X14: the stored query is always the text of the latest submission,
    empty or not, trimmed or not; toggles and responses never change it. *)
Theorem X14_query_is_latest_submission (es : list Event) (w : World) :
  searchQuery (ui (run es w)) = latestSubmission es (searchQuery (ui w)).
Proof.
  revert w. induction es as [|e es IH]; intro w; cbn [run fold_left].
  - reflexivity.
  - specialize (IH (step w e)). unfold run in IH. rewrite IH, step_query.
    unfold latestSubmission. cbn [fold_left]. reflexivity.
Qed.

(** * Order of converted temperatures *)

Section Order.

Local Open Scope Q_scope.

Lemma nearest_tenths_Z (x : Q) :
  0 <= x -> Z.of_N (nearest_tenths x) = Qfloor (x * 10 + (1 # 2)).
Proof.
  intro Hx. unfold nearest_tenths. apply Z2N.id.
  change 0%Z with (Qfloor 0). apply Qfloor_resp_le. lra.
Qed.

Lemma nearest_tenths_mono (x y : Q) :
  0 <= x -> x <= y -> (Z.of_N (nearest_tenths x) <= Z.of_N (nearest_tenths y))%Z.
Proof.
  intros Hx Hxy. rewrite !nearest_tenths_Z by lra.
  apply Qfloor_resp_le. lra.
Qed.

Lemma tenths_le (a b : Z) : (a <= b)%Z -> a # 10 <= b # 10.
Proof. intro H. unfold Qle. cbn. lia. Qed.

Lemma tenths_nonneg (n : N) : 0 <= Z.of_N n # 10.
Proof. unfold Qle. cbn. lia. Qed.

(** Rounding to tenths, half away from zero, keeps the order. *)
Lemma signed_tenths_mono (x y : Q) :
  x <= y ->
  signed_tenths (Qnegative x) (nearest_tenths (Qabs x))
  <= signed_tenths (Qnegative y) (nearest_tenths (Qabs y)).
Proof.
  intro Hxy. unfold signed_tenths.
  destruct (Qnegative x) eqn:Ex, (Qnegative y) eqn:Ey.
  - apply Qnegative_lt in Ex, Ey.
    assert (H : Z.of_N (nearest_tenths (Qabs y)) # 10
                <= Z.of_N (nearest_tenths (Qabs x)) # 10).
    { apply tenths_le, nearest_tenths_mono; [apply Qabs_nonneg|].
      rewrite !Qabs_neg by (apply Qlt_le_weak; assumption). lra. }
    lra.
  - pose proof (tenths_nonneg (nearest_tenths (Qabs x))).
    pose proof (tenths_nonneg (nearest_tenths (Qabs y))). lra.
  - apply Qnegative_ge in Ex. apply Qnegative_lt in Ey. lra.
  - apply Qnegative_ge in Ex, Ey.
    assert (H : Z.of_N (nearest_tenths (Qabs x)) # 10
                <= Z.of_N (nearest_tenths (Qabs y)) # 10).
    { apply tenths_le, nearest_tenths_mono; [apply Qabs_nonneg|].
      rewrite !Qabs_pos by assumption. assumption. }
    lra.
Qed.

Lemma toFahrenheit_in_range (c x : Q) :
  fahrenheitDouble (Fin c) = Fin x -> Qabs x < pow10 21 ->
  toFahrenheit (Fin c) = tenths_string (Qnegative x) (nearest_tenths (Qabs x)).
Proof.
  intros Ex Hx. unfold toFahrenheit. rewrite Ex. cbn [toFixed1].
  destruct (Qle_bool (pow10 21) (Qabs x)) eqn:T; [|reflexivity].
  apply Qle_bool_iff in T. lra.
Qed.

(** Between -1024 and 1024 degrees the double computed for the conversion
    is finite, below 2048 in magnitude, and grows with the Celsius value. *)
Lemma fahrenheitDouble_mono (c1 c2 : Q) :
  Qabs c1 <= 1024 -> Qabs c2 <= 1024 -> c1 <= c2 ->
  exists x1 x2,
    fahrenheitDouble (Fin c1) = Fin x1 /\ fahrenheitDouble (Fin c2) = Fin x2 /\
    Qabs x1 <= 1878 /\ Qabs x2 <= 1878 /\ x1 <= x2.
Proof.
  intros H1 H2 H12.
  apply Qabs_Qle_condition in H1. apply Qabs_Qle_condition in H2.
  unfold fahrenheitDouble.
  assert (P14 : pow2 14 = 16384) by reflexivity.
  assert (P11 : pow2 11 = 2048) by reflexivity.
  assert (P12 : pow2 12 = 4096) by reflexivity.
  assert (Q40 : pow2 (14 - 54) = 1 # 1099511627776) by reflexivity.
  assert (Q43 : pow2 (11 - 54) = 1 # 8796093022208) by reflexivity.
  assert (Q42 : pow2 (12 - 54) = 1 # 4398046511104) by reflexivity.
  destruct (round64_error (c1 * 9) 14) as (a1 & Ea1 & Ha1); [lia | |].
  { rewrite P14. apply Qle_lt_trans with 9216; [|reflexivity].
    apply Qabs_Qle_condition. split; lra. }
  destruct (round64_error (c2 * 9) 14) as (a2 & Ea2 & Ha2); [lia | |].
  { rewrite P14. apply Qle_lt_trans with 9216; [|reflexivity].
    apply Qabs_Qle_condition. split; lra. }
  rewrite Q40 in Ha1, Ha2.
  apply Qabs_Qle_condition in Ha1. apply Qabs_Qle_condition in Ha2.
  assert (Ha : a1 <= a2) by (apply (round64_mono (c1 * 9) (c2 * 9)); [lra | assumption ..]).
  cbn [num_mul]. rewrite Ea1, Ea2. cbn [num_div].
  change (Qeq_bool 5 0) with false. cbv iota.
  assert (D1 : a1 / 5 == a1 * (1 # 5)) by reflexivity.
  assert (D2 : a2 / 5 == a2 * (1 # 5)) by reflexivity.
  destruct (round64_error (a1 / 5) 11) as (b1 & Eb1 & Hb1); [lia | |].
  { rewrite P11, D1. apply Qle_lt_trans with 1844; [|reflexivity].
    apply Qabs_Qle_condition. split; lra. }
  destruct (round64_error (a2 / 5) 11) as (b2 & Eb2 & Hb2); [lia | |].
  { rewrite P11, D2. apply Qle_lt_trans with 1844; [|reflexivity].
    apply Qabs_Qle_condition. split; lra. }
  rewrite Q43, D1 in Hb1. rewrite Q43, D2 in Hb2.
  apply Qabs_Qle_condition in Hb1. apply Qabs_Qle_condition in Hb2.
  assert (Hb : b1 <= b2).
  { apply (round64_mono (a1 / 5) (a2 / 5)); [rewrite D1, D2; lra | assumption ..]. }
  rewrite Eb1, Eb2. cbn [num_add].
  destruct (round64_error (b1 + 32) 12) as (x1 & Ex1 & Hx1); [lia | |].
  { rewrite P12. apply Qle_lt_trans with 1877; [|reflexivity].
    apply Qabs_Qle_condition. split; lra. }
  destruct (round64_error (b2 + 32) 12) as (x2 & Ex2 & Hx2); [lia | |].
  { rewrite P12. apply Qle_lt_trans with 1877; [|reflexivity].
    apply Qabs_Qle_condition. split; lra. }
  rewrite Q42 in Hx1, Hx2.
  apply Qabs_Qle_condition in Hx1. apply Qabs_Qle_condition in Hx2.
  exists x1, x2. split; [exact Ex1|]. split; [exact Ex2|].
  split; [apply Qabs_Qle_condition; split; lra|].
  split; [apply Qabs_Qle_condition; split; lra|].
  apply (round64_mono (b1 + 32) (b2 + 32)); [lra | assumption ..].
Qed.

(** The prop [Number(x.toFixed(1))] of a finite double below 2048 is a finite
    double. *)
Lemma shown_double (x : Q) :
  Qabs x <= 1878 ->
  exists r, round64 (signed_tenths (Qnegative x) (nearest_tenths (Qabs x))) = Fin r.
Proof.
  intro Hx. pose proof (signed_tenths_close x) as Hs.
  set (t := signed_tenths (Qnegative x) (nearest_tenths (Qabs x))) in *.
  destruct (round64_error t 11) as (r & Er & _); [lia | |].
  - assert (P11 : pow2 11 = 2048) by reflexivity. rewrite P11.
    apply Qle_lt_trans with 1879; [|reflexivity].
    apply Qabs_Qle_condition in Hs. apply Qabs_Qle_condition in Hx.
    apply Qabs_Qle_condition. split; lra.
  - exists r. exact Er.
Qed.

End Order.

(** X15: between -1024 and 1024 degrees the conversion keeps the order of
    temperatures: when one Celsius value is at most another, the number
    [Number] reads back from its Fahrenheit string is a finite double at
    most the one read back from the other's (so the converted minimum
    passed to a card never exceeds the converted maximum). *)
Theorem X15_conversion_monotone (c1 c2 : Q) :
  (Qabs c1 <= 1024)%Q -> (Qabs c2 <= 1024)%Q -> (c1 <= c2)%Q ->
  exists r1 r2 : Q,
    Number (VStr (toFahrenheit (Fin c1))) = Fin r1 /\
    Number (VStr (toFahrenheit (Fin c2))) = Fin r2 /\
    (r1 <= r2)%Q.
Proof.
  intros H1 H2 H12.
  destruct (fahrenheitDouble_mono c1 c2 H1 H2 H12)
    as (x1 & x2 & E1 & E2 & B1 & B2 & Hx).
  assert (R1 : (Qabs x1 < pow10 21)%Q)
    by (apply Qle_lt_trans with 1878%Q; [assumption | reflexivity]).
  assert (R2 : (Qabs x2 < pow10 21)%Q)
    by (apply Qle_lt_trans with 1878%Q; [assumption | reflexivity]).
  destruct (shown_double x1 B1) as (r1 & Er1).
  destruct (shown_double x2 B2) as (r2 & Er2).
  exists r1, r2. cbn [Number].
  rewrite (toFahrenheit_in_range c1 x1 E1 R1), (toFahrenheit_in_range c2 x2 E2 R2).
  rewrite !StringToNumber_tenths.
  split; [exact Er1|]. split; [exact Er2|].
  apply (round64_mono _ _ r1 r2 (signed_tenths_mono x1 x2 Hx) Er1 Er2).
Qed.

Lemma X15_conversion_monotone_witness :
  (Qabs 10 <= 1024)%Q /\ (Qabs 20 <= 1024)%Q /\ (10 <= 20)%Q /\
  Number (VStr (toFahrenheit (Fin 10))) = Fin 50 /\
  Number (VStr (toFahrenheit (Fin 20))) = Fin 68 /\
  exists r1 r2 : Q,
    Number (VStr (toFahrenheit (Fin 10))) = Fin r1 /\
    Number (VStr (toFahrenheit (Fin 20))) = Fin r2 /\
    (r1 <= r2)%Q.
Proof.
  assert (H1 : (Qabs 10 <= 1024)%Q) by (vm_compute; discriminate).
  assert (H2 : (Qabs 20 <= 1024)%Q) by (vm_compute; discriminate).
  assert (H : (10 <= 20)%Q) by (vm_compute; discriminate).
  split; [exact H1|]. split; [exact H2|]. split; [exact H|].
  split; [vm_compute; reflexivity|]. split; [vm_compute; reflexivity|].
  exact (X15_conversion_monotone 10 20 H1 H2 H).
Defined.
